(** * Password security toolkit: assessment, crack-time estimation, generation

    A shallow embedding of the computational core of [PasswordSecurityApp.js]
    (reference tables, [isCommonWord], [isLikelyCommonPassword],
    [calculateEntropy], [calculateTimeToCrack], [formatTime],
    [assessPasswordStrength] and [generatePassword]) followed by the properties
    established about it.

    Conventions of the embedding.
    - A JavaScript string is a [string]: a sequence of code units below 256
      (the Latin-1 range), on which [toLowerCase] is closed.
    - A JavaScript number that stays rational is a [Q] and is computed exactly;
      [Math.round] is rounding half up.  The two places where the source leaves
      the rationals ([Math.log2] in the entropy, [Math.pow(2, e)] in the crack
      time) are real numbers, with an exact integer decision procedure for the
      entropy thresholds the score depends on.
    - React state ([generatorSettings], [generatedPassword]) is an explicit
      record threaded through [generatePassword]; [Math.random] is an explicit
      stream of draws. *)

From Stdlib Require Import Bool List Arith ZArith NArith QArith Qround Qminmax.
From Stdlib Require Import Lia Psatz Ascii String DecimalString Reals Qreals.
Import ListNotations.

Local Open Scope string_scope.

(* ================================================================= *)
(** ** Strings as the source uses them *)

Definition code (c : ascii) : N := N_of_ascii c.

Definition between (lo hi : N) (c : ascii) : bool :=
  ((lo <=? code c) && (code c <=? hi))%N.

(** The character classes of the regular expressions. *)
Definition isLower (c : ascii) : bool := between 97 122 c.     (* [a-z] *)
Definition isUpper (c : ascii) : bool := between 65 90 c.      (* [A-Z] *)
Definition isDigit (c : ascii) : bool := between 48 57 c.      (* [0-9], \d *)
Definition isLetter (c : ascii) : bool := isLower c || isUpper c. (* [a-zA-Z], [a-z] under /i *)
Definition isAlnum (c : ascii) : bool := isLetter c || isDigit c.
Definition isSymbol (c : ascii) : bool := negb (isAlnum c).    (* [^a-zA-Z0-9], [\W_] *)
(** [.] matches everything but a line terminator. *)
Definition isDot (c : ascii) : bool :=
  negb ((code c =? 10)%N || (code c =? 13)%N).
Definition anyChar (c : ascii) : bool := true.

(** [String.prototype.toLowerCase] on one code unit of the Latin-1 range:
    A-Z, and the accented capitals 0xC0-0xDE except the multiplication sign. *)
Definition lowerChar (c : ascii) : ascii :=
  if isUpper c || (between 192 222 c && negb (code c =? 215)%N)
  then ascii_of_N (code c + 32) else c.

(** [toUpperCase] is applied by the source to table entries only (ASCII). *)
Definition upperChar (c : ascii) : ascii :=
  if isLower c then ascii_of_N (code c - 32) else c.

Fixpoint mapString (f : ascii -> ascii) (s : string) : string :=
  match s with
  | EmptyString => EmptyString
  | String c s' => String (f c) (mapString f s')
  end.

Definition toLowerCase (s : string) : string := mapString lowerChar s.

Fixpoint existsChar (p : ascii -> bool) (s : string) : bool :=
  match s with
  | EmptyString => false
  | String c s' => p c || existsChar p s'
  end.

Fixpoint forallChar (p : ascii -> bool) (s : string) : bool :=
  match s with
  | EmptyString => true
  | String c s' => p c && forallChar p s'
  end.

Fixpoint countChar (p : ascii -> bool) (s : string) : nat :=
  match s with
  | EmptyString => 0
  | String c s' => (if p c then 1 else 0) + countChar p s'
  end.

Fixpoint filterString (p : ascii -> bool) (s : string) : string :=
  match s with
  | EmptyString => EmptyString
  | String c s' => if p c then String c (filterString p s') else filterString p s'
  end.

(** [!s] on a string: true exactly for the empty string. *)
Definition isEmpty (s : string) : bool :=
  match s with EmptyString => true | _ => false end.

Fixpoint startsWith (s pre : string) : bool :=
  match pre, s with
  | EmptyString, _ => true
  | String _ _, EmptyString => false
  | String a pre', String b s' => Ascii.eqb a b && startsWith s' pre'
  end.

(** [s.includes(pat)]: [pat] occurs as a substring of [s]. *)
Fixpoint includes (s pat : string) : bool :=
  startsWith s pat ||
  match s with
  | EmptyString => false
  | String _ s' => includes s' pat
  end.

(** [array.includes(x)] on an array of strings. *)
Definition arrayIncludes (l : list string) (x : string) : bool :=
  existsb (String.eqb x) l.

(** Membership of a character in a literal character set. *)
Fixpoint charIn (set : string) (c : ascii) : bool :=
  match set with
  | EmptyString => false
  | String a set' => Ascii.eqb a c || charIn set' c
  end.

(** A bracket class of plain characters under the [i] flag. *)
Definition charInCI (set : string) (c : ascii) : bool :=
  charIn set c
  || (isUpper c && charIn set (lowerChar c))
  || (isLower c && charIn set (upperChar c)).

Definition firstChar (s : string) : option ascii :=
  match s with EmptyString => None | String c _ => Some c end.

Fixpoint lastChar (s : string) : option ascii :=
  match s with
  | EmptyString => None
  | String c EmptyString => Some c
  | String _ s' => lastChar s'
  end.

(** [word.charAt(0).toUpperCase() + word.slice(1)]. *)
Definition capitalize (s : string) : string :=
  match s with
  | EmptyString => EmptyString
  | String c s' => String (upperChar c) s'
  end.

(** [s.replace(/[0-9]+$/, '')]: the trailing run of characters of class [p],
    when there is one, is removed. *)
Fixpoint stripTrailing (p : ascii -> bool) (s : string) : string :=
  match s with
  | EmptyString => EmptyString
  | String c s' => if forallChar p s then EmptyString else String c (stripTrailing p s')
  end.

(** The longest prefix of characters of class [p], and what follows it. *)
Fixpoint spanChars (p : ascii -> bool) (s : string) : string * string :=
  match s with
  | EmptyString => (EmptyString, EmptyString)
  | String c s' =>
      if p c then let '(a, b) := spanChars p s' in (String c a, b)
      else (EmptyString, s)
  end.

Fixpoint repeatChar (c : ascii) (n : nat) : string :=
  match n with
  | O => EmptyString
  | S n' => String c (repeatChar c n')
  end.

Fixpoint join (sep : string) (l : list string) : string :=
  match l with
  | [] => EmptyString
  | [x] => x
  | x :: rest => x ++ sep ++ join sep rest
  end.

(** Decimal rendering of an integer, as a template literal renders it. *)
Definition showZ (z : Z) : string := NilZero.string_of_int (Z.to_int z).

(* ================================================================= *)
(** ** Numbers *)

(** [Math.round]: to the nearest integer, a tie going up. *)
Definition mathRound (q : Q) : Z := Qfloor (q + (1 # 2))%Q.

Definition ofNat (n : nat) : Q := inject_Z (Z.of_nat n).

Definition strLen (s : string) : Q := ofNat (String.length s).

Definition Qltb (a b : Q) : bool := negb (Qle_bool b a).
Definition Qleb (a b : Q) : bool := Qle_bool a b.

(* ================================================================= *)
(** ** Regular expressions

    The regular expressions of the source that have no back-reference are
    kept as syntax and decided by derivatives; [test] on an unanchored
    expression is a search. *)

Inductive regex : Type :=
| Void : regex
| Eps : regex
| Chr (p : ascii -> bool) : regex
| Cat (r1 r2 : regex) : regex
| Alt (r1 r2 : regex) : regex
| Star (r : regex) : regex.

Fixpoint nullable (r : regex) : bool :=
  match r with
  | Void => false
  | Eps => true
  | Chr _ => false
  | Cat r1 r2 => nullable r1 && nullable r2
  | Alt r1 r2 => nullable r1 || nullable r2
  | Star _ => true
  end.

Definition cat (r1 r2 : regex) : regex :=
  match r1, r2 with
  | Void, _ => Void
  | _, Void => Void
  | Eps, _ => r2
  | _, Eps => r1
  | _, _ => Cat r1 r2
  end.

Definition alt (r1 r2 : regex) : regex :=
  match r1, r2 with
  | Void, _ => r2
  | _, Void => r1
  | _, _ => Alt r1 r2
  end.

Fixpoint deriv (c : ascii) (r : regex) : regex :=
  match r with
  | Void => Void
  | Eps => Void
  | Chr p => if p c then Eps else Void
  | Cat r1 r2 =>
      if nullable r1 then alt (cat (deriv c r1) r2) (deriv c r2)
      else cat (deriv c r1) r2
  | Alt r1 r2 => alt (deriv c r1) (deriv c r2)
  | Star r1 => cat (deriv c r1) (Star r1)
  end.

Fixpoint matches (r : regex) (s : string) : bool :=
  match s with
  | EmptyString => nullable r
  | String c s' => matches (deriv c r) s'
  end.

(** The language of a regular expression, which [matches] decides. *)
Inductive accepts : regex -> string -> Prop :=
| acceptsEps : accepts Eps EmptyString
| acceptsChr (p : ascii -> bool) (c : ascii) :
    p c = true -> accepts (Chr p) (String c EmptyString)
| acceptsCat (r1 r2 : regex) (s1 s2 : string) :
    accepts r1 s1 -> accepts r2 s2 -> accepts (Cat r1 r2) (s1 ++ s2)
| acceptsAltL (r1 r2 : regex) (s : string) :
    accepts r1 s -> accepts (Alt r1 r2) s
| acceptsAltR (r1 r2 : regex) (s : string) :
    accepts r2 s -> accepts (Alt r1 r2) s
| acceptsStarNil (r : regex) : accepts (Star r) EmptyString
| acceptsStarCons (r : regex) (s1 s2 : string) :
    accepts r s1 -> accepts (Star r) s2 -> accepts (Star r) (s1 ++ s2).

(** Derived forms. *)
Definition plus (r : regex) : regex := Cat r (Star r).            (* r+ *)
Definition opt (r : regex) : regex := Alt Eps r.                  (* r? *)
Fixpoint times (n : nat) (r : regex) : regex :=                   (* r{n} *)
  match n with O => Eps | S n' => Cat r (times n' r) end.
Fixpoint upTo (n : nat) (r : regex) : regex :=                    (* r{0,n} *)
  match n with O => Eps | S n' => opt (Cat r (upTo n' r)) end.
Definition range (lo hi : nat) (r : regex) : regex :=             (* r{lo,hi} *)
  Cat (times lo r) (upTo (hi - lo) r).
Fixpoint lit (s : string) : regex :=                              (* a literal *)
  match s with
  | EmptyString => Eps
  | String c s' => Cat (Chr (Ascii.eqb c)) (lit s')
  end.
Fixpoint alts (l : list regex) : regex :=                         (* r1|r2|... *)
  match l with
  | [] => Void
  | [r] => r
  | r :: l' => Alt r (alts l')
  end.
(** A sequence of bracket classes, each given by its characters. *)
Fixpoint classes (ci : bool) (l : list string) : regex :=
  match l with
  | [] => Eps
  | set :: l' => Cat (Chr (if ci then charInCI set else charIn set)) (classes ci l')
  end.

Definition anything : regex := Star (Chr anyChar).

(** [/^r$/.test(s)], [/^r/.test(s)], [/r$/.test(s)] and [/r/.test(s)]. *)
Definition testWhole (r : regex) (s : string) : bool := matches r s.
Definition testPrefix (r : regex) (s : string) : bool := matches (Cat r anything) s.
Definition testSuffix (r : regex) (s : string) : bool := matches (Cat anything r) s.
Definition testSearch (r : regex) (s : string) : bool :=
  matches (Cat anything (Cat r anything)) s.

(** The back-reference expressions [/(.)\1+/g] and [/(.)\1{2,}/g]: the
    matches are the maximal runs of one repeated character (not a line
    terminator) of length at least [atLeast], from left to right. *)
Fixpoint runsFrom (prev : ascii) (n : nat) (s : string) : list (ascii * nat) :=
  match s with
  | EmptyString => [(prev, n)]
  | String c s' =>
      if Ascii.eqb c prev then runsFrom prev (S n) s'
      else (prev, n) :: runsFrom c 1 s'
  end.

Definition runs (s : string) : list (ascii * nat) :=
  match s with
  | EmptyString => []
  | String c s' => runsFrom c 1 s'
  end.

Definition matchRuns (atLeast : nat) (s : string) : list string :=
  map (fun cn => repeatChar (fst cn) (snd cn))
      (filter (fun cn => isDot (fst cn) && Nat.leb atLeast (snd cn)) (runs s)).

(* ================================================================= *)
(** ** Reference data *)

Definition COMMON_PREFIXES : list string :=
  [ "admin"; "user"; "test"; "password"; "pass"; "welcome"; "abc"; "qwerty";
    "letme"; "hello"; "temp"; "demo"; "login"; "secure"; "dev"; "guest"; "acc" ].

Definition COMMON_SUFFIXES : list string :=
  [ "123"; "1234"; "12345"; "123456"; "2023"; "2024"; "2022"; "2021"; "!"; "!!";
    "@"; "#"; "1"; "01"; "0" ].

Definition words_food : list string :=
  [ "pizza"; "burger"; "pasta"; "sushi"; "nasi"; "rice"; "bread"; "cheese";
    "nasigoreng"; "nasikuning"; "chocolate"; "cookie"; "cake"; "coffee"; "tea";
    "banana"; "apple"; "orange"; "chicken"; "beef"; "fish"; "candy"; "sugar";
    "salt"; "cream"; "milk"; "water"; "juice"; "soda"; "wine"; "beer" ].

Definition words_animals : list string :=
  [ "cat"; "dog"; "lion"; "tiger"; "bear"; "monkey"; "horse"; "bird"; "fish";
    "dragon"; "eagle"; "wolf"; "fox"; "rabbit"; "mouse"; "rat"; "deer"; "cow";
    "goat"; "sheep"; "pig"; "duck"; "chicken"; "snake"; "lizard"; "turtle";
    "elephant"; "panda"; "koala"; "dolphin"; "whale"; "shark"; "zebra";
    "giraffe"; "frog" ].

Definition words_colors : list string :=
  [ "red"; "blue"; "green"; "black"; "white"; "orange"; "purple"; "yellow";
    "pink"; "brown"; "gold"; "silver"; "gray"; "violet"; "indigo"; "magenta";
    "cyan"; "teal"; "maroon"; "navy"; "lime"; "olive"; "aqua"; "coral" ].

Definition words_sports : list string :=
  [ "soccer"; "football"; "basketball"; "tennis"; "golf"; "hockey"; "baseball";
    "rugby"; "cricket"; "volleyball"; "badminton"; "swimming"; "boxing";
    "racing"; "running"; "cycling"; "skating"; "skiing"; "surfing"; "bowling";
    "billiards"; "archery"; "fishing"; "hunting"; "karate"; "judo"; "taekwondo" ].

Definition words_tech : list string :=
  [ "computer"; "laptop"; "windows"; "apple"; "android"; "github"; "code";
    "tech"; "cyber"; "crypto"; "bitcoin"; "google"; "microsoft"; "facebook";
    "twitter"; "instagram"; "youtube"; "tiktok"; "snapchat"; "linkedin"; "wifi";
    "internet"; "router"; "server"; "cloud"; "linux"; "ubuntu"; "python";
    "java"; "javascript"; "html"; "css"; "php"; "ruby"; "swift"; "data";
    "cyber"; "hack"; "secure"; "virus"; "trojan" ].

Definition words_emotions : list string :=
  [ "happy"; "love"; "smile"; "cool"; "angry"; "sad"; "peace"; "hope"; "dream";
    "joy"; "excited"; "calm"; "relax"; "stress"; "worry"; "fear"; "brave";
    "proud"; "shame"; "guilt"; "trust"; "doubt"; "surprise"; "disgust";
    "pleasure"; "pain"; "faith"; "believe" ].

Definition words_names : list string :=
  [ "john"; "mike"; "david"; "james"; "alex"; "sarah"; "emma"; "lisa"; "anna";
    "maria"; "chris"; "robert"; "michael"; "william"; "mary"; "patricia";
    "linda"; "barbara"; "elizabeth"; "jennifer"; "susan"; "jessica"; "thomas";
    "charles"; "daniel"; "matthew"; "mark"; "donald"; "steven"; "paul";
    "andrew"; "josh"; "george"; "kevin" ].

Definition words_places : list string :=
  [ "paris"; "london"; "tokyo"; "berlin"; "rome"; "madrid"; "moscow"; "dubai";
    "sydney"; "beijing"; "newyork"; "chicago"; "boston"; "seattle"; "atlanta";
    "miami"; "vegas"; "texas"; "canada"; "mexico"; "brazil"; "india"; "china";
    "japan"; "korea"; "egypt"; "africa"; "europe"; "asia"; "america" ].

Definition words_months : list string :=
  [ "january"; "february"; "march"; "april"; "may"; "june"; "july"; "august";
    "september"; "october"; "november"; "december"; "jan"; "feb"; "mar"; "apr";
    "jun"; "jul"; "aug"; "sep"; "oct"; "nov"; "dec" ].

Definition words_days : list string :=
  [ "monday"; "tuesday"; "wednesday"; "thursday"; "friday"; "saturday";
    "sunday"; "mon"; "tue"; "wed"; "thu"; "fri"; "sat"; "sun" ].

Definition COMMON_WORDS_CATEGORIES : list (string * list string) :=
  [ ("food", words_food);
    ("animals", words_animals);
    ("colors", words_colors);
    ("sports", words_sports);
    ("tech", words_tech);
    ("emotions", words_emotions);
    ("names", words_names);
    ("places", words_places);
    ("months", words_months);
    ("days", words_days) ].

Definition OTHER_COMMON_WORDS : list string :=
  [ "password"; "secret"; "private"; "letme"; "hello"; "please"; "money";
    "summer"; "winter"; "spring"; "autumn"; "monday"; "tuesday"; "wednesday";
    "thursday"; "friday"; "saturday"; "sunday"; "company"; "business"; "office";
    "house"; "garden"; "school"; "college"; "friend"; "family"; "welcome";
    "thank"; "sorry"; "great"; "awesome"; "super"; "nice"; "home"; "work";
    "play"; "simple"; "easy"; "hard"; "strong"; "weak"; "big"; "small"; "first";
    "last"; "best"; "one"; "two"; "three"; "four"; "five"; "six"; "seven";
    "eight"; "nine"; "ten" ].

Definition commonPasswords : list string :=
  [ "123456"; "password"; "123456789"; "12345678"; "12345"; "1234567";
    "password123"; "admin"; "welcome"; "qwerty"; "abc123"; "Password1";
    "letmein"; "monkey"; "dragon"; "sunshine"; "princess"; "football";
    "charlie"; "shadow"; "master"; "jordan"; "superman"; "harley"; "qwerty123";
    "password1"; "admin123"; "test123"; "common123" ].

Definition keyboardPatterns : list string :=
  [ "qwerty"; "asdf"; "zxcv"; "1234"; "abcd"; "qwer"; "asdfgh"; "123456";
    "qwertyuiop"; "asdfghjkl"; "zxcvbnm"; "098765" ].

(** [Object.values(COMMON_WORDS_CATEGORIES).flat()]. *)
Definition ALL_COMMON_WORDS : list string :=
  List.concat (map snd COMMON_WORDS_CATEGORIES).

(* ================================================================= *)
(** ** Heuristic classifier *)

(** What [isCommonWord] returns: a boolean or a confidence. *)
Inductive Commonality : Type :=
| JSBool (b : bool)
| JSNumber (q : Q).

Definition isCommonWord (word : string) : Commonality :=
  if isEmpty word || Nat.ltb (String.length word) 3 then JSBool false else
  let lowercaseWord := toLowerCase word in
  if existsb (fun category => arrayIncludes (snd category) lowercaseWord)
             COMMON_WORDS_CATEGORIES
  then JSBool true else
  if existsb (fun prefix => startsWith lowercaseWord prefix) COMMON_PREFIXES
  then JSBool true else
  if arrayIncludes OTHER_COMMON_WORDS lowercaseWord then JSBool true else
  if Nat.leb (String.length lowercaseWord) 5 then JSNumber (7 # 10) else
  if Nat.leb 8 (String.length lowercaseWord) then JSBool false else
  JSNumber (4 # 10).

Definition digitRegex : regex := Chr isDigit.
Definition letterRegex : regex := Chr isLetter.

(** [/^(19|20)\d{2}$/] *)
Definition yearRegex : regex :=
  Cat (Alt (lit "19") (lit "20")) (times 2 digitRegex).

(** [/^[a@][d][m][i1][n]|^[p][a@][s$][s$][w][0o][r][d]|^[t][e3][s$][t]/] *)
Definition leetPrefixRegex : regex :=
  alts [ classes false ["a@"; "d"; "m"; "i1"; "n"];
         classes false ["p"; "a@"; "s$"; "s$"; "w"; "0o"; "r"; "d"];
         classes false ["t"; "e3"; "s$"; "t"] ].

(** [n >= m / 2] on two lengths. *)
Definition atLeastHalf (n m : nat) : bool := Qleb (ofNat m / 2) (ofNat n).

Definition isLikelyCommonPassword (pwd : string) : bool :=
  if isEmpty pwd then false else
  let lowercasePwd := toLowerCase pwd in
  (* Direct match in common password list *)
  if arrayIncludes commonPasswords lowercasePwd then true else
  (* prefix + suffix, exact matches only *)
  if existsb (fun prefix =>
        existsb (fun suffix => String.eqb lowercasePwd (prefix ++ suffix))
                COMMON_SUFFIXES) COMMON_PREFIXES
  then true else
  (* dictionary word + suffix *)
  if existsb (fun food =>
        existsb (fun suffix => String.eqb lowercasePwd (food ++ suffix))
                COMMON_SUFFIXES) ALL_COMMON_WORDS
  then true else
  (* simple variations of a common password *)
  if existsb (fun common =>
        Nat.ltb 4 (String.length common) &&
        (String.eqb lowercasePwd common
         || String.eqb lowercasePwd (common ++ "!")
         || String.eqb lowercasePwd (capitalize common)))
        commonPasswords
  then true else
  (* keyboard patterns making up half of the password *)
  if existsb (fun pattern =>
        Nat.leb 4 (String.length pattern) && includes lowercasePwd pattern
        && atLeastHalf (String.length pattern) (String.length lowercasePwd))
        keyboardPatterns
  then true else
  (* sequential patterns making up half of the password *)
  if existsb (fun seq =>
        includes lowercasePwd seq
        && atLeastHalf (String.length seq) (String.length lowercasePwd))
        ["0123"; "1234"; "2345"; "3456"; "4567"; "5678"; "6789"; "abcd"; "wxyz"]
  then true else
  (* repeated characters (3 or more) making up half of the password *)
  if match matchRuns 3 lowercasePwd with
     | [] => false
     | first :: _ => atLeastHalf (String.length first) (String.length lowercasePwd)
     end
  then true else
  (* years *)
  if testWhole yearRegex lowercasePwd then true else
  (* l33t speak *)
  if testPrefix leetPrefixRegex lowercasePwd then true else
  (* single character type, shorter passwords only *)
  if Nat.ltb (String.length pwd) 8
     && (testWhole (plus letterRegex) pwd || testWhole (plus digitRegex) pwd)
  then true else
  (* common words with numbers *)
  let commonWords :=
    ["password"; "admin"; "user"; "login"; "welcome"; "manager"; "secure";
     "security"; "test"; "server"; "database"; "account"; "system"; "network";
     "default"; "guest"] in
  if testWhole (Cat (plus letterRegex) (range 1 4 digitRegex)) lowercasePwd
     && existsb (fun word => String.eqb (stripTrailing isDigit lowercasePwd) word)
                commonWords
  then true else
  false.

(* ================================================================= *)
(** ** Pattern helpers *)

Definition hasUpper (pwd : string) : bool := existsChar isUpper pwd.
Definition hasLower (pwd : string) : bool := existsChar isLower pwd.
Definition hasNumber (pwd : string) : bool := existsChar isDigit pwd.
Definition hasSymbol (pwd : string) : bool := existsChar isSymbol pwd.

Definition charsetSum (pwd : string) : Z :=
  ((if hasLower pwd then 26 else 0) + (if hasUpper pwd then 26 else 0)
   + (if hasNumber pwd then 10 else 0) + (if hasSymbol pwd then 33 else 0))%Z.

(** [size || 10]. *)
Definition getCharsetSize (pwd : string) : Z :=
  let size := charsetSum pwd in
  if (size =? 0)%Z then 10%Z else size.

Definition containsKeyboardPattern (pwd : string) : bool :=
  let lowercasePwd := toLowerCase pwd in
  existsb (fun pattern => includes lowercasePwd pattern)
          ["qwerty"; "asdfgh"; "zxcvbnm"; "qwertz"; "12345"].

Record SequentialResult : Type := mkSequentialResult
  { found : bool; pattern : string; patternLength : nat }.

(** The loop that keeps the longest table entry occurring in [haystack]:
    an entry replaces the current one only when strictly longer. *)
Definition longestOf (haystack : string) (table : list string) : string :=
  fold_left
    (fun longestMatch entry =>
       if includes haystack entry
          && Nat.ltb (String.length longestMatch) (String.length entry)
       then entry else longestMatch)
    table EmptyString.

Definition containsSequentialPattern (pwd : string) : SequentialResult :=
  let lowercasePwd := toLowerCase pwd in
  let longestMatch :=
    longestOf lowercasePwd
      ["123456"; "12345"; "1234"; "abcdef"; "abcde"; "abcd";
       "654321"; "54321"; "4321"] in
  if negb (isEmpty longestMatch)
  then mkSequentialResult true longestMatch (String.length longestMatch)
  else mkSequentialResult false EmptyString 0.

(* ================================================================= *)
(** ** Entropy calculator *)

(** [Math.pow(charset || 1, pwd.length)], an integer. *)
Definition entropyBase (pwd : string) : Z :=
  let charset := charsetSum pwd in
  ((if (charset =? 0)%Z then 1 else charset) ^ Z.of_nat (String.length pwd))%Z.

(** [1 - repetitionPenalty], or 1 when no character is repeated. *)
Definition repetitionFactor (pwd : string) : Q :=
  match matchRuns 2 pwd with
  | [] => 1
  | repeats =>
      let repeatLength := fold_left (fun sum r => (sum + String.length r)%nat) repeats 0%nat in
      let repetitionPenalty := (ofNat repeatLength / strLen pwd) * (25 # 100) in
      1 - repetitionPenalty
  end.

(** [1 - entropyReduction], or 1 when neither kind of pattern is found. *)
Definition patternFactor (pwd : string) : Q :=
  let seqResult := containsSequentialPattern pwd in
  let hasKeyboardPattern := containsKeyboardPattern pwd in
  if found seqResult || hasKeyboardPattern then
    let patternRatio :=
      if found seqResult
      then Qmax 0 (ofNat (patternLength seqResult) / strLen pwd)
      else 0 in
    let entropyReduction := (2 # 10) + patternRatio * (1 # 10) in
    1 - entropyReduction
  else 1.

(** [/^[a-z]+[0-9]+$/i] *)
Definition wordThenNumberRegex : regex := Cat (plus letterRegex) (plus digitRegex).

Definition wordNumberFactor (pwd : string) : Q :=
  if testWhole wordThenNumberRegex pwd then 9 # 10 else 1.

Definition log2 (x : R) : R := (ln x / ln 2)%R.

Definition calculateEntropy (pwd : string) : R :=
  if isEmpty pwd then 0%R else
  let rawEntropy := log2 (IZR (entropyBase pwd)) in
  let rawEntropy := (rawEntropy * Q2R (repetitionFactor pwd))%R in
  let rawEntropy := (rawEntropy * Q2R (patternFactor pwd))%R in
  let rawEntropy := (rawEntropy * Q2R (wordNumberFactor pwd))%R in
  Rmax 0 rawEntropy.

(** The product of the three reduction factors, in lowest terms. *)
Definition entropyScale (pwd : string) : Q :=
  Qred (repetitionFactor pwd * patternFactor pwd * wordNumberFactor pwd).

(** Decides [calculateEntropy(pwd) > bits] for a threshold [bits >= 0] in
    integer arithmetic: [log2 b * (n / d) > t] exactly when [b ^ n > 2 ^ (t * d)]. *)
Definition entropyExceeds (pwd : string) (bits : Z) : bool :=
  if isEmpty pwd then false else
  let f := entropyScale pwd in
  (2 ^ (bits * Zpos (Qden f)) <? entropyBase pwd ^ Qnum f)%Z.

(* ================================================================= *)
(** ** Composite scorer *)

(** The three locals [score], [issues] and [patterns] of
    [assessPasswordStrength], threaded through its successive checks. *)
Record Acc : Type := mkAcc
  { accScore : Q; accIssues : list string; accPatterns : list string }.

Definition addScore (d : Q) (a : Acc) : Acc :=
  mkAcc (accScore a + d) (accIssues a) (accPatterns a).
Definition subScore (d : Q) (a : Acc) : Acc :=
  mkAcc (accScore a - d) (accIssues a) (accPatterns a).
Definition pushIssue (s : string) (a : Acc) : Acc :=
  mkAcc (accScore a) (accIssues a ++ [s]) (accPatterns a).
Definition pushPattern (s : string) (a : Acc) : Acc :=
  mkAcc (accScore a) (accIssues a) (accPatterns a ++ [s]).

Definition b2n (b : bool) : nat := if b then 1%nat else 0%nat.

Definition characterTypes (pwd : string) : nat :=
  b2n (hasUpper pwd) + b2n (hasLower pwd) + b2n (hasNumber pwd) + b2n (hasSymbol pwd).

(** Character diversity: 0 to 40 points. *)
Definition diversityStep (pwd : string) (a : Acc) : Acc :=
  match characterTypes pwd with
  | 4%nat => addScore 40 a
  | 3%nat => addScore 30 a
  | 2%nat => addScore 20 a
  | 1%nat => addScore 10 a
  | _ => addScore 0 a
  end.

(** A single symbol at the first or last position, or very few symbols in a
    very long password. *)
Definition symbolStep (pwd : string) (a : Acc) : Acc :=
  if hasSymbol pwd then
    let symbolCount := countChar isSymbol pwd in
    let symbolRatio := ofNat symbolCount / strLen pwd in
    let symbolsOnlyAtPredictablePositions :=
      testPrefix (Chr isSymbol) pwd || testSuffix (Chr isSymbol) pwd in
    if Nat.eqb symbolCount 1 && symbolsOnlyAtPredictablePositions
       && Nat.ltb (String.length pwd) 16 && Qltb (accScore a) 80
    then
      let penaltyAmount := Qmax 3 (inject_Z (mathRound (10 - strLen pwd / 4))) in
      pushPattern "Single symbol at predictable position"
        (pushIssue "Distribute symbols throughout password for better security"
           (subScore penaltyAmount a))
    else if Qltb symbolRatio (5 # 100) && Nat.ltb 20 (String.length pwd)
    then subScore 2 a
    else a
  else a.

(** Length: 5 to 30 points. *)
Definition lengthStep (pwd : string) (a : Acc) : Acc :=
  let length := String.length pwd in
  if Nat.leb 16 length then addScore 30 a
  else if Nat.leb 12 length then addScore 25 a
  else if Nat.leb 8 length then addScore 15 a
  else if Nat.leb 6 length then addScore 10 a
  else pushIssue "Too short" (addScore 5 a).

(** Entropy: 0 to 20 points. *)
Definition entropyStep (pwd : string) (a : Acc) : Acc :=
  if entropyExceeds pwd 90 then addScore 20 a
  else if entropyExceeds pwd 70 then addScore 15 a
  else if entropyExceeds pwd 50 then addScore 10 a
  else if entropyExceeds pwd 30 then addScore 5 a
  else a.

Definition commonStep (pwd : string) (a : Acc) : Acc :=
  if isLikelyCommonPassword pwd
  then subScore 40
         (pushPattern "Common password pattern"
            (pushIssue "Common password or pattern detected" a))
  else a.

(** The body of [keyboardPatterns.forEach]: every table entry that occurs in
    the password records a pattern and subtracts its own penalty. *)
Definition keyboardEntry (pwd : string) (a : Acc) (entry : string) : Acc :=
  if includes (toLowerCase pwd) entry then
    let patternRatio := ofNat (String.length entry) / strLen pwd in
    subScore (inject_Z (mathRound (25 * patternRatio)))
      (pushPattern ("Keyboard pattern: " ++ entry) a)
  else a.

Definition keyboardStep (pwd : string) (a : Acc) : Acc :=
  fold_left (keyboardEntry pwd) keyboardPatterns a.

Definition repeatingStep (pwd : string) (a : Acc) : Acc :=
  match matchRuns 3 pwd with
  | [] => a
  | repeatingChars =>
      subScore 15
        (pushPattern ("Repeating characters: " ++ join ", " repeatingChars) a)
  end.

Definition sequentialPatterns : list string :=
  ["123456"; "12345"; "1234"; "abcdef"; "abcde"; "abcd"].

(** The longest sequential entry occurring in the password, the first of
    them among entries of equal length. *)
Definition longestSequential (pwd : string) : option string :=
  fold_left
    (fun longestPattern entry =>
       if includes (toLowerCase pwd) entry then
         match longestPattern with
         | None => Some entry
         | Some l =>
             if Nat.ltb (String.length l) (String.length entry)
             then Some entry else longestPattern
         end
       else longestPattern)
    sequentialPatterns None.

Definition sequentialStep (pwd : string) (a : Acc) : Acc :=
  match longestSequential pwd with
  | Some longestPattern =>
      let patternRatio := ofNat (String.length longestPattern) / strLen pwd in
      subScore (inject_Z (mathRound (20 * patternRatio)))
        (pushPattern ("Sequential pattern: " ++ longestPattern) a)
  | None => a
  end.

(** [/^(?:(?:[a-z][0-9])+|(?:[0-9][a-z])+)$/i] *)
Definition alternatingRegex : regex :=
  Alt (plus (Cat letterRegex digitRegex)) (plus (Cat digitRegex letterRegex)).

Definition alternatingStep (pwd : string) (a : Acc) : Acc :=
  if testWhole alternatingRegex pwd
  then subScore 15 (pushPattern "Alternating pattern detected" a)
  else a.

(** [/[a@][s$][e3][t+]/i] and [/[p][a@][s$][s$][w][0o][r][d]/i] *)
Definition leetRegex1 : regex := classes true ["a@"; "s$"; "e3"; "t+"].
Definition leetRegex2 : regex :=
  classes true ["p"; "a@"; "s$"; "s$"; "w"; "0o"; "r"; "d"].

Definition leetStep (pwd : string) (a : Acc) : Acc :=
  if testSearch leetRegex1 pwd || testSearch leetRegex2 pwd
  then subScore 10 (pushPattern "L33t speak pattern detected" a)
  else a.

(** [/^[a-z]+[\W_]+[0-9]+$/i] *)
Definition wordSymbolNumberRegex : regex :=
  Cat (plus letterRegex) (Cat (plus (Chr isSymbol)) (plus digitRegex)).

Definition wordSymbolNumberStep (pwd : string) (a : Acc) : Acc :=
  if testWhole wordSymbolNumberRegex pwd
  then subScore 15 (pushPattern "Word+symbol+number formula detected" a)
  else a.

(** [pwd.match(/^([a-z]{3,})([0-9]+)$/i)]: the two groups, when the password
    is at least three letters followed by at least one digit. *)
Definition wordNumberMatch (pwd : string) : option (string * string) :=
  let '(word, rest) := spanChars isLetter pwd in
  if Nat.leb 3 (String.length word) && negb (isEmpty rest) && forallChar isDigit rest
  then Some (word, rest) else None.

Definition triples : list string :=
  ["123"; "234"; "345"; "456"; "567"; "678"; "789";
   "987"; "876"; "765"; "654"; "543"; "432"; "321"].

(** [/^(123|321|111|222|333|444|555|666|777|888|999|000)$/] *)
Definition simpleNumberRegex : regex :=
  alts (map lit ["123"; "321"; "111"; "222"; "333"; "444"; "555"; "666";
                 "777"; "888"; "999"; "000"]).

(** The branch taken for a word that is in no table and that
    [isCommonWord] does not consider common. *)
Definition uncommonWordNumber (pwd numberPart : string) (a : Acc) : Acc :=
  let a := pushPattern "Uncommon word + number pattern" a in
  let a := addScore 5 a in
  let isSequential := testSearch (alts (map lit triples)) numberPart in
  let a :=
    if isSequential then
      let a := pushPattern "Sequential numbers in pattern" a in
      let longestMatch := longestOf numberPart triples in
      let sequentialRatio := ofNat (String.length longestMatch) / strLen pwd in
      let basePenalty := 10 in
      let adjustedPenalty := inject_Z (mathRound (basePenalty * sequentialRatio * 2)) in
      let a := subScore (Qmin adjustedPenalty 10) a in
      let lengthBonus := strLen numberPart in
      addScore (Qmin lengthBonus 3) a
    else if Nat.leb 3 (String.length numberPart)
    then addScore (Qmin 5 (strLen numberPart - 2)) a
    else a in
  if testWhole simpleNumberRegex numberPart then subScore 5 a else a.

Definition wordNumberStep (pwd : string) (a : Acc) : Acc :=
  match wordNumberMatch pwd with
  | None => a
  | Some (word, numberPart) =>
      let wordPart := toLowerCase word in
      let commonWords :=
        ["password"; "admin"; "user"; "login"; "welcome"; "manager";
         "secure"; "security"; "test"; "server"; "database"; "account"] in
      if existsb (fun w => String.eqb wordPart w) commonWords then
        subScore 25 (pushPattern "Common word + number pattern" a)
      else
        match find (fun category => arrayIncludes (snd category) wordPart)
                   COMMON_WORDS_CATEGORIES with
        | Some (wordCategory, _) =>
            subScore 25
              (pushPattern (capitalize wordCategory ++ " word + number pattern") a)
        | None =>
            match isCommonWord wordPart with
            | JSBool true =>
                subScore 20 (pushPattern "Common word + number pattern" a)
            | JSNumber commonality =>
                if Qltb 0 commonality then
                  subScore (10 * commonality)
                    (pushPattern "Potentially common word + number pattern" a)
                else uncommonWordNumber pwd numberPart a
            | JSBool false => uncommonWordNumber pwd numberPart a
            end
        end
  end.

(** [/^\d{1,2}[/-_.]\d{1,2}[/-_.](19|20)?\d{2}$/]: the bracket class is the
    range from the slash to the underscore, and the full stop. *)
Definition dateSeparator (c : ascii) : bool := between 47 95 c || (code c =? 46)%N.

Definition dateRegex : regex :=
  Cat (range 1 2 digitRegex)
    (Cat (Chr dateSeparator)
       (Cat (range 1 2 digitRegex)
          (Cat (Chr dateSeparator)
             (Cat (opt (Alt (lit "19") (lit "20"))) (times 2 digitRegex))))).

Definition dateStep (pwd : string) (a : Acc) : Acc :=
  if testWhole yearRegex pwd || testWhole dateRegex pwd
  then subScore 20 (pushPattern "Date pattern" a)
  else a.

(** Letters only or digits only: an issue, not a pattern. *)
Definition singleTypeStep (pwd : string) (a : Acc) : Acc :=
  if Nat.ltb 1 (String.length pwd) then
    if testWhole (plus letterRegex) pwd
    then subScore 20 (pushIssue "Only letters" a)
    else if testWhole (plus digitRegex) pwd
    then subScore 30 (pushIssue "Only numbers" a)
    else a
  else a.

Definition consistencyStep (pwd : string) (a : Acc) : Acc :=
  let consistencyBonus := Qmin 10 (strLen pwd) in
  addScore consistencyBonus a.

Definition missingTypesStep (pwd : string) (a : Acc) : Acc :=
  let a := if hasUpper pwd then a else pushIssue "No uppercase" a in
  let a := if hasLower pwd then a else pushIssue "No lowercase" a in
  let a := if hasNumber pwd then a else pushIssue "No numbers" a in
  if hasSymbol pwd then a else pushIssue "No symbols" a.

(** The checks of [assessPasswordStrength] in the order of the source,
    up to (not including) the normalisation of the score. *)
Definition scoreSteps (pwd : string) : Acc :=
  let a := mkAcc 0 [] [] in
  let a := diversityStep pwd a in
  let a := symbolStep pwd a in
  let a := lengthStep pwd a in
  let a := entropyStep pwd a in
  let a := commonStep pwd a in
  let a := keyboardStep pwd a in
  let a := repeatingStep pwd a in
  let a := sequentialStep pwd a in
  let a := alternatingStep pwd a in
  let a := leetStep pwd a in
  let a := wordSymbolNumberStep pwd a in
  let a := wordNumberStep pwd a in
  let a := dateStep pwd a in
  let a := singleTypeStep pwd a in
  let a := consistencyStep pwd a in
  missingTypesStep pwd a.

(** [Math.max(1, Math.min(100, score))], then the floor of 65 for a password
    with all four character types, twelve characters, no pattern, not common. *)
Definition normalizeScore (pwd : string) (a : Acc) : Q :=
  let score := Qmax 1 (Qmin 100 (accScore a)) in
  if Nat.eqb (characterTypes pwd) 4 && Nat.leb 12 (String.length pwd)
     && Nat.eqb (List.length (accPatterns a)) 0
     && negb (isLikelyCommonPassword pwd)
  then Qmax score 65 else score.

Definition strengthOf (score : Q) (hasPatterns isCommon : bool) : string * string :=
  let patternAdjustment := if hasPatterns then 10 else 0 in
  let commonAdjustment := if isCommon then 10 else 0 in
  let totalAdjustment := patternAdjustment + commonAdjustment in
  if Qleb (90 + totalAdjustment) score then ("Excellent", "text-purple-500")
  else if Qleb (80 + totalAdjustment) score then ("Very Strong", "text-green-500")
  else if Qleb (70 + totalAdjustment) score then ("Strong", "text-blue-500")
  else if Qleb (50 + totalAdjustment) score then ("Moderate", "text-yellow-500")
  else if Qleb (30 + totalAdjustment) score then ("Weak", "text-orange-500")
  else ("Very Weak", "text-red-500").

(** The fields that only a non-empty password gets. *)
Record Details : Type := mkDetails
  { strength : string;
    strengthColor : string;
    entropy : R;
    detHasUpper : bool;
    detHasLower : bool;
    detHasNumber : bool;
    detHasSymbol : bool;
    detLength : nat;
    isCommon : bool;
    hasPatterns : bool }.

Record Assessment : Type := mkAssessment
  { score : Q;
    issues : list string;
    patterns : list string;
    details : option Details }.

Definition assessPasswordStrength (pwd : string) : Assessment :=
  if isEmpty pwd then mkAssessment 0 [] [] None else
  let a := scoreSteps pwd in
  let common := isLikelyCommonPassword pwd in
  let score := normalizeScore pwd a in
  let anyPattern := negb (Nat.eqb (List.length (accPatterns a)) 0) in
  let '(strength, strengthColor) := strengthOf score anyPattern common in
  let entropy := calculateEntropy pwd in
  let adjustedEntropy :=
    if anyPattern && Qltb score 25 then Rmin entropy 40 else entropy in
  mkAssessment score (accIssues a) (accPatterns a)
    (Some (mkDetails strength strengthColor adjustedEntropy
             (hasUpper pwd) (hasLower pwd) (hasNumber pwd) (hasSymbol pwd)
             (String.length pwd) common anyPattern)).

(* ================================================================= *)
(** ** Crack-time estimator *)

Record CrackTime : Type := mkCrackTime
  { online : R; offline : R; optimized : R }.

(** [/^[A-Z][a-z]+\d+[\W_]+$/] *)
Definition capitalFormulaRegex : regex :=
  Cat (Chr isUpper)
    (Cat (plus (Chr isLower)) (Cat (plus digitRegex) (plus (Chr isSymbol)))).

(** The product of the adjustments for the patterns of the password,
    before its lower bound is applied. *)
Definition adjustmentFactor (pwd : string) : Q :=
  let adjustmentFactor := 1 in
  let adjustmentFactor :=
    if containsKeyboardPattern pwd then adjustmentFactor * (3 # 10)
    else adjustmentFactor in
  let seqPattern := containsSequentialPattern pwd in
  let adjustmentFactor :=
    if found seqPattern then
      let sequentialRatio := ofNat (patternLength seqPattern) / strLen pwd in
      let sequentialPenalty := (4 # 10) + (3 # 10) * (1 - sequentialRatio) in
      adjustmentFactor * sequentialPenalty
    else adjustmentFactor in
  let adjustmentFactor :=
    if testWhole wordThenNumberRegex pwd then
      if isLikelyCommonPassword (stripTrailing isDigit pwd)
      then adjustmentFactor * (15 # 100)
      else adjustmentFactor * (5 # 10)
    else adjustmentFactor in
  let adjustmentFactor :=
    if hasUpper pwd && hasLower pwd && hasNumber pwd && hasSymbol pwd then
      if testWhole capitalFormulaRegex pwd
      then adjustmentFactor * (6 # 10)
      else adjustmentFactor * (12 # 10)
    else adjustmentFactor in
  if Nat.leb 16 (String.length pwd) then adjustmentFactor * (13 # 10)
  else if Nat.leb (String.length pwd) 8 then adjustmentFactor * (5 # 10)
  else adjustmentFactor.

(** The call [getCharsetSize(pwd)] of the source is for information only:
    its result is dropped. *)
Definition calculateTimeToCrack
    (entropy : R) (common : bool) (score : R) (pwd : string) : CrackTime :=
  let guessesOnline := 1000%R in
  let guessesOffline := 1000000000%R in
  let guessesOptimized := 50000000000%R in
  if common then mkCrackTime (1 / 1000) (1 / 10000) (1 / 100000) else
  let scoreRatio := (score / 100)%R in
  let maxEntropy := 100%R in
  let lengthFactor := if Nat.leb (String.length pwd) 20 then 1%R else (8 / 10)%R in
  let effectiveEntropy :=
    Rmin (entropy * (7 / 10 + 3 / 10 * scoreRatio) * lengthFactor) maxEntropy in
  let combinations := Rpower 2 effectiveEntropy in
  let adjustment := Rmax (5 / 100) (Q2R (adjustmentFactor pwd)) in
  mkCrackTime (combinations / guessesOnline * adjustment)
              (combinations / guessesOffline * adjustment)
              (combinations / guessesOptimized * adjustment).

(* ================================================================= *)
(** ** Formatting a duration *)

(** A JavaScript number: every finite double is a rational. *)
Inductive Number : Type :=
| NaN
| Infinity (negative : bool)
| Finite (q : Q).

Definition formatTime (seconds : Number) : string :=
  match seconds with
  | NaN | Infinity _ => "Virtually forever"
  | Finite seconds =>
      if Qltb seconds (1 # 1000) then "Instantly"
      else if Qltb seconds 1 then "Less than a second"
      else if Qltb seconds 60 then showZ (mathRound seconds) ++ " seconds"
      else if Qltb seconds 3600 then showZ (mathRound (seconds / 60)) ++ " minutes"
      else if Qltb seconds 86400 then showZ (mathRound (seconds / 3600)) ++ " hours"
      else if Qltb seconds 604800 then showZ (mathRound (seconds / 86400)) ++ " days"
      else if Qltb seconds 2629746 then showZ (mathRound (seconds / 604800)) ++ " weeks"
      else if Qltb seconds 31556952 then showZ (mathRound (seconds / 2629746)) ++ " months"
      else
        let years := seconds / 31556952 in
        if Qltb years 10 then showZ (mathRound years) ++ " years"
        else if Qltb years 100 then showZ (mathRound (years / 10) * 10) ++ " years"
        else if Qltb years 1000 then showZ (mathRound (years / 100) * 100) ++ " years"
        else if Qltb years 10000 then showZ (mathRound (years / 1000)) ++ "K years"
        else if Qltb years 1000000 then showZ (mathRound (years / 10000) * 10) ++ "K years"
        else "1M+ years"
  end.

(* ================================================================= *)
(** ** Generator *)

Record GeneratorSettings : Type := mkSettings
  { length : nat;
    includeUppercase : bool;
    includeLowercase : bool;
    includeNumbers : bool;
    includeSymbols : bool;
    excludeSimilar : bool;
    pronounceable : bool }.

(** The two pieces of component state that [generatePassword] reads and writes. *)
Record AppState : Type := mkAppState
  { generatorSettings : GeneratorSettings;
    generatedPassword : string }.

Definition setGeneratedPassword (value : string) (st : AppState) : AppState :=
  mkAppState (generatorSettings st) value.

(** The random source: the successive draws of [Math.random], each the
    numerator of a fraction over [2^53]. *)
Definition RandomSource : Type := nat -> N.

Definition twoTo53 : positive := (2 ^ 53)%positive.

(** [Math.random()]: a number in the half-open interval from 0 to 1, and
    the source advanced by one draw. *)
Definition mathRandom (g : RandomSource) : Q * RandomSource :=
  (Z.of_N (g 0%nat mod Npos twoTo53) # twoTo53, fun k => g (S k)).

(** [Math.floor(Math.random() * n)]. *)
Definition randomBelow (n : nat) (g : RandomSource) : Z * RandomSource :=
  let '(r, g') := mathRandom g in (Qfloor (r * ofNat n), g').

(** [s[i]] appended to a string: the character, or the text of [undefined]
    when the index is out of range. *)
Definition charAt (s : string) (i : Z) : string :=
  match (if (i <? 0)%Z then None else String.get (Z.to_nat i) s) with
  | Some c => String c EmptyString
  | None => "undefined"
  end.

Definition consonants : string := "bcdfghjklmnpqrstvwxz".
Definition vowels : string := "aeiou".
Definition pronounceableSymbols : string := "!@#$%".

(** [for (let i = 0; i < bound; i++)] of the pronounceable branch, with
    [remaining = bound - i] iterations to go. *)
Fixpoint pronounceableLoop (remaining i : nat) (result : string) (g : RandomSource)
  : string * RandomSource :=
  match remaining with
  | O => (result, g)
  | S remaining' =>
      let letters := if Nat.eqb (i mod 2) 0 then consonants else vowels in
      let '(k, g') := randomBelow (String.length letters) g in
      pronounceableLoop remaining' (S i) (result ++ charAt letters k) g'
  end.

(** [for (let i = 0; i < length; i++) result += charset[...]]. *)
Fixpoint charsetLoop (remaining : nat) (charset result : string) (g : RandomSource)
  : string * RandomSource :=
  match remaining with
  | O => (result, g)
  | S remaining' =>
      let '(k, g') := randomBelow (String.length charset) g in
      charsetLoop remaining' charset (result ++ charAt charset k) g'
  end.

Definition lowercaseLetters : string := "abcdefghijklmnopqrstuvwxyz".
Definition uppercaseLetters : string := "ABCDEFGHIJKLMNOPQRSTUVWXYZ".
Definition digits : string := "0123456789".
Definition symbols : string := "!@#$%^&*()_+-=[]{}|;:,.<>?".
Definition similarCharacters : string := "il1Lo0O".

(** The character set of the non-pronounceable branch. *)
Definition resolveCharset (s : GeneratorSettings) : string :=
  let charset := EmptyString in
  let charset := if includeLowercase s then charset ++ lowercaseLetters else charset in
  let charset := if includeUppercase s then charset ++ uppercaseLetters else charset in
  let charset := if includeNumbers s then charset ++ digits else charset in
  let charset := if includeSymbols s then charset ++ symbols else charset in
  if excludeSimilar s
  then filterString (fun c => negb (charIn similarCharacters c)) charset
  else charset.

(** The value [generatePassword] passes to [setGeneratedPassword], or
    [None] when it returns without calling it. *)
Definition generate (s : GeneratorSettings) (g : RandomSource)
  : option string * RandomSource :=
  if pronounceable s then
    let bound := Z.to_nat (Qceiling (ofNat (length s) / 2)) in
    let '(result, g) := pronounceableLoop bound 0 EmptyString g in
    let '(result, g) :=
      if includeNumbers s && Nat.ltb (String.length result) (length s)
      then let '(d, g') := randomBelow 10 g in (result ++ showZ d, g')
      else (result, g) in
    let '(result, g) :=
      if includeSymbols s && Nat.ltb (String.length result) (length s)
      then let '(k, g') := randomBelow 5 g in
           (result ++ charAt pronounceableSymbols k, g')
      else (result, g) in
    (Some (substring 0 (length s) result), g)
  else
    let charset := resolveCharset s in
    if isEmpty charset then (None, g) else
    let '(result, g) := charsetLoop (length s) charset EmptyString g in
    (Some result, g).

Definition generatePassword (st : AppState) (g : RandomSource)
  : AppState * RandomSource :=
  match generate (generatorSettings st) g with
  | (Some result, g') => (setGeneratedPassword result st, g')
  | (None, g') => (st, g')
  end.


(* ================================================================= *)
(** ** Vocabulary of the statements *)

(** [Math.ceil(n / 2)] as a natural number. *)
Definition ceilHalf (n : nat) : nat := ((n + 1) / 2)%nat.

(** The letters of a pronounceable password: a consonant at every even
    position counted from [i], a vowel at every odd one. *)
Fixpoint alternatesFrom (i : nat) (s : string) : bool :=
  match s with
  | EmptyString => true
  | String c s' =>
      charIn (if Nat.eqb (i mod 2) 0 then consonants else vowels) c
      && alternatesFrom (S i) s'
  end.

(** The character set implied by the flags: the union of the ranges of
    the enabled classes, without the look-alikes when they are excluded. *)
Definition allowedChar (s : GeneratorSettings) (c : ascii) : bool :=
  ((includeLowercase s && isLower c)
   || (includeUppercase s && isUpper c)
   || (includeNumbers s && isDigit c)
   || (includeSymbols s && charIn symbols c))
  && negb (excludeSimilar s && charIn similarCharacters c).

(** A lowercased word is matched by the reference data: it occurs in a
    dictionary category or among the other common words, or it starts with
    a common prefix. *)
Definition matchedByReferenceData (w : string) : Prop :=
  (exists category, In category COMMON_WORDS_CATEGORIES /\ In w (snd category))
  \/ In w OTHER_COMMON_WORDS
  \/ (exists prefix, In prefix COMMON_PREFIXES /\ startsWith w prefix = true).

(** The keyboard rule as the specification words it, for comparison with
    [keyboardStep]: the longest table entry occurring in the password wins,
    and one penalty of 25 times its span ratio is subtracted. *)
Definition keyboardStepLongestMatch (pwd : string) (a : Acc) : Acc :=
  let longestMatch := longestOf (toLowerCase pwd) keyboardPatterns in
  if isEmpty longestMatch then a else
  let spanRatio := ofNat (String.length longestMatch) / strLen pwd in
  subScore (inject_Z (mathRound (25 * spanRatio)))
    (pushPattern ("Keyboard pattern: " ++ longestMatch) a).

(** The accumulator [assessPasswordStrength] starts from, and what single
    checks add to or take from it. *)
Definition zeroAcc : Acc := mkAcc 0 [] [].
Definition diversityPoints (pwd : string) : Q := accScore (diversityStep pwd zeroAcc).
Definition lengthPoints (pwd : string) : Q := accScore (lengthStep pwd zeroAcc).
Definition entropyBonus (pwd : string) : Q := accScore (entropyStep pwd zeroAcc).
Definition singleTypePenalty (pwd : string) : Q :=
  - accScore (singleTypeStep pwd zeroAcc).

(** A check that records a pattern whenever it changes anything. *)
Definition quiet (f : Acc -> Acc) : Prop :=
  forall a, accPatterns (f a) = [] -> f a = a.
(* ================================================================= *)
(** * Properties *)

(* ----------------------------------------------------------------- *)
(** ** The score is clamped *)

Lemma clamp_bounds (x : Q) : (1 <= Qmax 1 (Qmin 100 x) <= 100)%Q.
Proof.
  split; [apply Q.le_max_l|].
  apply Q.max_lub; [discriminate|apply Q.le_min_l].
Qed.

Lemma clamp_monotone (x y : Q) :
  (x <= y)%Q -> (Qmax 1 (Qmin 100 x) <= Qmax 1 (Qmin 100 y))%Q.
Proof.
  intros H. apply Q.max_le_compat_l. apply Q.min_le_compat_l. exact H.
Qed.

Lemma normalizeScore_bounds (pwd : string) (a : Acc) :
  (1 <= normalizeScore pwd a <= 100)%Q.
Proof.
  unfold normalizeScore.
  pose proof (clamp_bounds (accScore a)) as [Hlo Hhi].
  destruct (_ && _); [|split; assumption].
  split.
  - eapply Qle_trans; [exact Hlo|apply Q.le_max_l].
  - apply Q.max_lub; [exact Hhi|discriminate].
Qed.

Lemma assess_score (pwd : string) :
  isEmpty pwd = false ->
  score (assessPasswordStrength pwd) = normalizeScore pwd (scoreSteps pwd).
Proof.
  intros H. unfold assessPasswordStrength. rewrite H.
  destruct (strengthOf _ _ _). reflexivity.
Qed.

Lemma assess_patterns (pwd : string) :
  isEmpty pwd = false ->
  patterns (assessPasswordStrength pwd) = accPatterns (scoreSteps pwd).
Proof.
  intros H. unfold assessPasswordStrength. rewrite H.
  destruct (strengthOf _ _ _). reflexivity.
Qed.

Lemma isEmpty_false (pwd : string) : pwd <> EmptyString -> isEmpty pwd = false.
Proof. destruct pwd; [congruence|reflexivity]. Qed.

(** C1, as stated, fails on the empty password: its assessment has score 0,
    below the lower bound of the clamp. *)
Lemma assess_empty_score_zero :
  score (assessPasswordStrength EmptyString) = 0%Q
  /\ ~ (1 <= score (assessPasswordStrength EmptyString) <= 100)%Q.
Proof.
  split; [reflexivity|].
  intros [H _]. vm_compute in H. apply H. reflexivity.
Qed.

(** C1 (amended): for every non-empty password the score of the assessment
    lies between 1 and 100; the empty password is assessed with score 0 and
    with no issue and no pattern. *)
Theorem assess_score_clamped (pwd : string) :
  (pwd <> EmptyString ->
   (1 <= score (assessPasswordStrength pwd) <= 100)%Q)
  /\ (pwd = EmptyString ->
      assessPasswordStrength pwd = mkAssessment 0 [] [] None).
Proof.
  split.
  - intros H. rewrite (assess_score pwd (isEmpty_false pwd H)).
    apply normalizeScore_bounds.
  - intros ->. reflexivity.
Qed.

Lemma assess_score_clamped_witness :
  (1 <= score (assessPasswordStrength "Tr0ub4dor&3") <= 100)%Q
  /\ assessPasswordStrength EmptyString = mkAssessment 0 [] [] None.
Proof.
  split.
  - apply (proj1 (assess_score_clamped "Tr0ub4dor&3")). discriminate.
  - apply (proj2 (assess_score_clamped EmptyString)). reflexivity.
Defined.

(* ----------------------------------------------------------------- *)
(** ** The random source stays in range *)

Lemma mathRandom_range (g : RandomSource) :
  (0 <= fst (mathRandom g) /\ fst (mathRandom g) < 1)%Q.
Proof.
  unfold mathRandom; simpl fst.
  assert (Hm : (g 0%nat mod Npos twoTo53 < Npos twoTo53)%N)
    by (apply N.mod_lt; discriminate).
  set (m := (g 0%nat mod Npos twoTo53)%N) in *.
  unfold Qle, Qlt; simpl. split; lia.
Qed.

Lemma Qfloor_range (x : Q) (n : Z) :
  (0 <= x)%Q -> (x < inject_Z n)%Q -> (0 <= Qfloor x < n)%Z.
Proof.
  intros H0 Hn. split.
  - change 0%Z with (Qfloor (inject_Z 0)). apply Qfloor_resp_le. exact H0.
  - apply Z.lt_nge. intros Hge.
    assert (Hle : (inject_Z n <= x)%Q).
    { eapply Qle_trans; [|apply Qfloor_le]. rewrite <- Zle_Qle. exact Hge. }
    apply (Qlt_irrefl x). eapply Qlt_le_trans; eassumption.
Qed.

Lemma randomBelow_range (n : nat) (g : RandomSource) :
  (0 < n)%nat -> (0 <= fst (randomBelow n g) < Z.of_nat n)%Z.
Proof.
  intros Hn. unfold randomBelow.
  pose proof (mathRandom_range g) as [H0 H1].
  destruct (mathRandom g) as [r g']; cbn [fst] in *.
  assert (Hpos : (0 < ofNat n)%Q).
  { unfold ofNat. change 0%Q with (inject_Z 0). rewrite <- Zlt_Qlt. lia. }
  apply Qfloor_range.
  - apply Qmult_le_0_compat; [exact H0|apply Qlt_le_weak; exact Hpos].
  - assert (H : (r * ofNat n < 1 * ofNat n)%Q)
      by (apply Qmult_lt_compat_r; assumption).
    rewrite Qmult_1_l in H. exact H.
Qed.

Lemma get_charIn (s : string) (k : nat) (c : ascii) :
  String.get k s = Some c -> charIn s c = true.
Proof.
  revert k; induction s as [|a s IH]; intros k H; [destruct k; discriminate|].
  destruct k as [|k]; simpl in *.
  - injection H as ->. rewrite Ascii.eqb_refl. reflexivity.
  - rewrite (IH k H). apply orb_true_r.
Qed.

Lemma get_in_range (s : string) (k : nat) :
  (k < String.length s)%nat -> exists c, String.get k s = Some c.
Proof.
  revert k; induction s as [|a s IH]; intros k H; simpl in H; [lia|].
  destruct k as [|k]; simpl; [eauto|]. apply IH. lia.
Qed.

(** Indexing within range yields one character of the indexed string. *)
Lemma charAt_in_range (s : string) (k : Z) :
  (0 <= k < Z.of_nat (String.length s))%Z ->
  exists c, charAt s k = String c EmptyString /\ charIn s c = true.
Proof.
  intros [H0 H1]. unfold charAt.
  destruct (k <? 0)%Z eqn:E; [apply Z.ltb_lt in E; lia|].
  destruct (get_in_range s (Z.to_nat k)) as [c Hc]; [lia|].
  rewrite Hc. exists c. split; [reflexivity|]. eapply get_charIn; eassumption.
Qed.

(** So a random pick from a non-empty string never reads [undefined]. *)
Lemma random_pick (s : string) (g : RandomSource) :
  s <> EmptyString ->
  exists c, charAt s (fst (randomBelow (String.length s) g)) = String c EmptyString
            /\ charIn s c = true.
Proof.
  intros Hs. apply charAt_in_range. apply randomBelow_range.
  destruct s; [congruence|simpl; lia].
Qed.

Lemma append_length (s t : string) :
  String.length (s ++ t) = (String.length s + String.length t)%nat.
Proof. induction s; simpl; congruence. Qed.

Lemma append_empty_r (s : string) : s ++ EmptyString = s.
Proof. induction s; simpl; congruence. Qed.

Lemma append_assoc (s t u : string) : (s ++ t) ++ u = s ++ (t ++ u).
Proof. induction s; simpl; congruence. Qed.

Lemma forallChar_append (p : ascii -> bool) (s t : string) :
  forallChar p (s ++ t) = forallChar p s && forallChar p t.
Proof.
  induction s as [|c s IH]; simpl; [reflexivity|].
  rewrite IH. apply andb_assoc.
Qed.

Lemma substring_all (s : string) (n : nat) :
  (String.length s <= n)%nat -> substring 0 n s = s.
Proof.
  revert n; induction s as [|c s IH]; intros n H; simpl in *.
  - destruct n; reflexivity.
  - destruct n as [|n]; [lia|]. simpl. rewrite IH; [reflexivity|lia].
Qed.

(* ----------------------------------------------------------------- *)
(** ** The matcher decides the language of a regular expression *)

Lemma accepts_Void (s : string) : ~ accepts Void s.
Proof. intros H. inversion H. Qed.

Lemma accepts_Eps (s : string) : accepts Eps s <-> s = EmptyString.
Proof. split; [intros H; inversion H; reflexivity|intros ->; constructor]. Qed.

Lemma accepts_Cat (r1 r2 : regex) (s : string) :
  accepts (Cat r1 r2) s <->
  exists s1 s2, s = s1 ++ s2 /\ accepts r1 s1 /\ accepts r2 s2.
Proof.
  split.
  - intros H. inversion H; subst. eauto.
  - intros [s1 [s2 [-> [H1 H2]]]]. constructor; assumption.
Qed.

Lemma accepts_Alt (r1 r2 : regex) (s : string) :
  accepts (Alt r1 r2) s <-> accepts r1 s \/ accepts r2 s.
Proof.
  split.
  - intros H. inversion H; subst; auto.
  - intros [H|H]; [apply acceptsAltL|apply acceptsAltR]; exact H.
Qed.

Lemma accepts_cat (r1 r2 : regex) (s : string) :
  accepts (cat r1 r2) s <-> accepts (Cat r1 r2) s.
Proof.
  assert (HV1 : forall r, accepts Void s <-> accepts (Cat Void r) s).
  { intros r. split; [intros H; inversion H|].
    intros H. apply accepts_Cat in H as [s1 [s2 [_ [H _]]]]. inversion H. }
  assert (HV2 : forall r, accepts Void s <-> accepts (Cat r Void) s).
  { intros r. split; [intros H; inversion H|].
    intros H. apply accepts_Cat in H as [s1 [s2 [_ [_ H]]]]. inversion H. }
  assert (HE1 : forall r, accepts r s <-> accepts (Cat Eps r) s).
  { intros r. split.
    - intros H. apply accepts_Cat. exists EmptyString, s. repeat split; [constructor|exact H].
    - intros H. apply accepts_Cat in H as [s1 [s2 [-> [H1 H2]]]].
      apply accepts_Eps in H1. subst s1. exact H2. }
  assert (HE2 : forall r, accepts r s <-> accepts (Cat r Eps) s).
  { intros r. split.
    - intros H. apply accepts_Cat. exists s, EmptyString.
      rewrite append_empty_r. repeat split; [exact H|constructor].
    - intros H. apply accepts_Cat in H as [s1 [s2 [-> [H1 H2]]]].
      apply accepts_Eps in H2. subst s2. rewrite append_empty_r. exact H1. }
  destruct r1, r2; cbn [cat]; auto; reflexivity.
Qed.

Lemma accepts_alt (r1 r2 : regex) (s : string) :
  accepts (alt r1 r2) s <-> accepts (Alt r1 r2) s.
Proof.
  rewrite accepts_Alt.
  destruct r1, r2; cbn [alt]; rewrite ?accepts_Alt;
    split; try tauto; intros H;
    repeat match goal with
           | H : _ \/ _ |- _ => destruct H
           | H : accepts Void _ |- _ => inversion H
           end; tauto.
Qed.

Lemma nullable_accepts (r : regex) : nullable r = true <-> accepts r EmptyString.
Proof.
  induction r as [| |p|r1 IH1 r2 IH2|r1 IH1 r2 IH2|r IH]; cbn [nullable].
  - split; [discriminate|intros H; inversion H].
  - split; [constructor|reflexivity].
  - split; [discriminate|intros H; inversion H].
  - rewrite andb_true_iff, IH1, IH2, accepts_Cat. split.
    + intros [H1 H2]. exists EmptyString, EmptyString. auto.
    + intros [s1 [s2 [E [H1 H2]]]].
      destruct s1; [|discriminate]. destruct s2; [|discriminate]. auto.
  - rewrite orb_true_iff, IH1, IH2, accepts_Alt. reflexivity.
  - split; [constructor|reflexivity].
Qed.

Lemma accepts_Star_cons_aux (r' : regex) (s' : string) :
  accepts r' s' ->
  forall (r : regex) (c : ascii) (s : string),
  r' = Star r -> s' = String c s ->
  exists s1 s2, s = s1 ++ s2 /\ accepts r (String c s1) /\ accepts (Star r) s2.
Proof.
  induction 1 as [ | p c0 Hp | r1 r2 s1 s2 H1 IH1 H2 IH2 | r1 r2 s0 H IH
                 | r1 r2 s0 H IH | r0 | r0 s1 s2 H1 IH1 H2 IH2 ];
    intros r c s Er Es; try discriminate.
  injection Er as ->.
  destruct s1 as [|a s1]; cbn [append] in Es.
  - apply (IH2 r c s eq_refl Es).
  - injection Es as Ea Es. subst a s. exists s1, s2. auto.
Qed.

Lemma accepts_Star_cons (r : regex) (c : ascii) (s : string) :
  accepts (Star r) (String c s) ->
  exists s1 s2, s = s1 ++ s2 /\ accepts r (String c s1) /\ accepts (Star r) s2.
Proof. intros H. apply (accepts_Star_cons_aux _ _ H r c s eq_refl eq_refl). Qed.

Lemma deriv_accepts (r : regex) :
  forall (c : ascii) (s : string),
  accepts (deriv c r) s <-> accepts r (String c s).
Proof.
  induction r as [| |p|r1 IH1 r2 IH2|r1 IH1 r2 IH2|r IH]; intros c s; cbn [deriv].
  - split; intros H; inversion H.
  - split; intros H; inversion H.
  - destruct (p c) eqn:E.
    + split; intros H.
      * apply accepts_Eps in H. subst s. constructor. exact E.
      * inversion H; subst. constructor.
    + split; intros H; inversion H; subst. congruence.
  - assert (Hcat : accepts (cat (deriv c r1) r2) s <->
                   exists s1 s2, s = s1 ++ s2 /\ accepts r1 (String c s1) /\ accepts r2 s2).
    { rewrite accepts_cat, accepts_Cat. split; intros [s1 [s2 [E [H1 H2]]]];
        exists s1, s2; repeat split; try assumption; apply IH1; exact H1. }
    rewrite accepts_Cat.
    destruct (nullable r1) eqn:En.
    + rewrite accepts_alt, accepts_Alt, Hcat, IH2. split.
      * intros [[s1 [s2 [-> [H1 H2]]]]|H].
        -- exists (String c s1), s2. auto.
        -- exists EmptyString, (String c s). repeat split; [|exact H].
           apply nullable_accepts. exact En.
      * intros [s1 [s2 [E [H1 H2]]]]. destruct s1 as [|a s1]; cbn [append] in E.
        -- right. subst s2. exact H2.
        -- injection E as Ea E. subst a s. left. exists s1, s2. auto.
    + rewrite Hcat. split.
      * intros [s1 [s2 [-> [H1 H2]]]]. exists (String c s1), s2. auto.
      * intros [s1 [s2 [E [H1 H2]]]]. destruct s1 as [|a s1]; cbn [append] in E.
        -- apply nullable_accepts in H1. congruence.
        -- injection E as Ea E. subst a s. exists s1, s2. auto.
  - rewrite accepts_alt, !accepts_Alt, IH1, IH2. reflexivity.
  - rewrite accepts_cat, accepts_Cat. split.
    + intros [s1 [s2 [-> [H1 H2]]]]. apply IH in H1.
      apply (acceptsStarCons r (String c s1) s2 H1 H2).
    + intros H. apply accepts_Star_cons in H as [s1 [s2 [-> [H1 H2]]]].
      exists s1, s2. repeat split; [apply IH; exact H1|exact H2].
Qed.

(** The derivative matcher decides membership in the language. *)
Lemma matches_accepts (s : string) :
  forall r : regex, matches r s = true <-> accepts r s.
Proof.
  induction s as [|c s IH]; intros r; cbn [matches].
  - apply nullable_accepts.
  - rewrite IH. apply deriv_accepts.
Qed.

(* ----------------------------------------------------------------- *)
(** ** The generator *)

Lemma ceil_half (n : nat) :
  Z.to_nat (Qceiling (ofNat n / 2)) = ceilHalf n.
Proof.
  unfold Qceiling, ceilHalf.
  change (Qfloor (- (ofNat n / 2))) with ((- (Z.of_nat n * 1)) / 2)%Z.
  rewrite Z.mul_1_r.
  pose proof (Z.div_mod (- Z.of_nat n) 2 ltac:(lia)) as H1.
  pose proof (Z.mod_pos_bound (- Z.of_nat n) 2 ltac:(lia)) as H2.
  apply Nat2Z.inj. rewrite Nat2Z.inj_div, Z2Nat.id by lia.
  rewrite Nat2Z.inj_add. change (Z.of_nat 1) with 1%Z. change (Z.of_nat 2) with 2%Z.
  pose proof (Z.div_mod (Z.of_nat n + 1) 2 ltac:(lia)) as H3.
  pose proof (Z.mod_pos_bound (Z.of_nat n + 1) 2 ltac:(lia)) as H4.
  lia.
Qed.

Lemma ceilHalf_le (n : nat) : (ceilHalf n <= n)%nat.
Proof.
  unfold ceilHalf. destruct n as [|n]; [reflexivity|].
  apply Nat.Div0.div_le_upper_bound. lia.
Qed.

Lemma show_digit (d : Z) :
  (0 <= d < 10)%Z ->
  exists c, showZ d = String c EmptyString /\ isDigit c = true.
Proof.
  intros H.
  assert (E : (d = 0 \/ d = 1 \/ d = 2 \/ d = 3 \/ d = 4 \/ d = 5
               \/ d = 6 \/ d = 7 \/ d = 8 \/ d = 9)%Z) by lia.
  repeat (destruct E as [E|E]); subst d; vm_compute; eauto.
Qed.

(** None of the characters the pronounceable branch can emit is a capital. *)
Lemma pronounceable_chars_not_upper (c : ascii) :
  charIn consonants c || charIn vowels c || isDigit c
  || charIn pronounceableSymbols c = true ->
  isUpper c = false.
Proof.
  destruct c as [[] [] [] [] [] [] [] []]; vm_compute; congruence.
Qed.

Lemma pronounceableLoop_spec (n : nat) :
  forall (i : nat) (result : string) (g : RandomSource),
  exists added g',
    pronounceableLoop n i result g = (result ++ added, g')
    /\ String.length added = n
    /\ alternatesFrom i added = true.
Proof.
  induction n as [|n IH]; intros i result g.
  - exists EmptyString, g. simpl. rewrite append_empty_r. auto.
  - cbn [pronounceableLoop].
    set (letters := if Nat.eqb (i mod 2) 0 then consonants else vowels).
    assert (Hne : letters <> EmptyString)
      by (unfold letters; destruct (Nat.eqb (i mod 2) 0); discriminate).
    destruct (random_pick letters g Hne) as [c [Hc Hin]].
    destruct (randomBelow (String.length letters) g) as [k g1].
    cbn [fst] in Hc. rewrite Hc.
    destruct (IH (S i) (result ++ String c EmptyString) g1)
      as [added [g' [Hrun [Hlen Halt]]]].
    exists (String c added), g'. rewrite Hrun, append_assoc.
    split; [reflexivity|]. split; [cbn [String.length]; congruence|].
    cbn [alternatesFrom]. fold letters. rewrite Hin, Halt. reflexivity.
Qed.

Lemma charsetLoop_spec (charset : string) (n : nat) :
  charset <> EmptyString ->
  forall (result : string) (g : RandomSource),
  exists added g',
    charsetLoop n charset result g = (result ++ added, g')
    /\ String.length added = n
    /\ forallChar (charIn charset) added = true.
Proof.
  intros Hne. induction n as [|n IH]; intros result g.
  - exists EmptyString, g. simpl. rewrite append_empty_r. auto.
  - cbn [charsetLoop].
    destruct (random_pick charset g Hne) as [c [Hc Hin]].
    destruct (randomBelow (String.length charset) g) as [k g1].
    cbn [fst] in Hc. rewrite Hc.
    destruct (IH (result ++ String c EmptyString) g1)
      as [added [g' [Hrun [Hlen Hall]]]].
    exists (String c added), g'. rewrite Hrun, append_assoc.
    split; [reflexivity|]. split; [cbn [String.length]; congruence|].
    cbn [forallChar]. rewrite Hin, Hall. reflexivity.
Qed.

(** The shape of what the pronounceable branch produces. *)
Lemma generate_pronounceable (s : GeneratorSettings) (g : RandomSource) :
  pronounceable s = true ->
  exists letters digit symbol,
    fst (generate s g) = Some (letters ++ digit ++ symbol)
    /\ String.length letters = ceilHalf (length s)
    /\ alternatesFrom 0 letters = true
    /\ (if includeNumbers s && Nat.ltb (String.length letters) (length s)
        then exists c, digit = String c EmptyString /\ isDigit c = true
        else digit = EmptyString)
    /\ (if includeSymbols s
           && Nat.ltb (String.length (letters ++ digit)) (length s)
        then exists c, symbol = String c EmptyString
                       /\ charIn pronounceableSymbols c = true
        else symbol = EmptyString).
Proof.
  intros Hp. unfold generate. rewrite Hp, ceil_half.
  destruct (pronounceableLoop_spec (ceilHalf (length s)) 0 EmptyString g)
    as [letters [g1 [Hrun [Hlen Halt]]]].
  rewrite Hrun. cbn [append].
  pose proof (ceilHalf_le (length s)) as Hle.
  pose proof (randomBelow_range 10 g1 ltac:(lia)) as Hd.
  destruct (includeNumbers s && Nat.ltb (String.length letters) (length s)) eqn:En.
  - destruct (randomBelow 10 g1) as [d g2]. cbn [fst] in Hd.
    destruct (show_digit d Hd) as [cd [Hshow Hdig]]. rewrite Hshow.
    assert (Hlt : (String.length letters < length s)%nat).
    { apply andb_true_iff in En as [_ En]. apply Nat.ltb_lt in En. exact En. }
    pose proof (randomBelow_range 5 g2 ltac:(lia)) as Hs.
    destruct (includeSymbols s
              && Nat.ltb (String.length (letters ++ String cd EmptyString)) (length s)) eqn:Es.
    + destruct (charAt_in_range pronounceableSymbols (fst (randomBelow 5 g2)) Hs)
        as [cs [Hcs Hin]].
      destruct (randomBelow 5 g2) as [k g3]. cbn [fst] in Hcs. rewrite Hcs.
      assert (Hlt2 : (String.length (letters ++ String cd EmptyString) < length s)%nat).
      { apply andb_true_iff in Es as [_ Es]. apply Nat.ltb_lt in Es. exact Es. }
      exists letters, (String cd EmptyString), (String cs EmptyString).
      cbn [fst]. rewrite substring_all, append_assoc.
      * rewrite En, Es. repeat split; eauto.
      * rewrite !append_length in *. cbn [String.length] in *. lia.
    + exists letters, (String cd EmptyString), EmptyString.
      cbn [fst]. rewrite substring_all.
      * rewrite En, Es. repeat split; eauto.
      * rewrite append_length. cbn [String.length]. lia.
  - pose proof (randomBelow_range 5 g1 ltac:(lia)) as Hs.
    destruct (includeSymbols s && Nat.ltb (String.length letters) (length s)) eqn:Es.
    + destruct (charAt_in_range pronounceableSymbols (fst (randomBelow 5 g1)) Hs)
        as [cs [Hcs Hin]].
      destruct (randomBelow 5 g1) as [k g3]. cbn [fst] in Hcs. rewrite Hcs.
      assert (Hlt : (String.length letters < length s)%nat).
      { apply andb_true_iff in Es as [_ Es]. apply Nat.ltb_lt in Es. exact Es. }
      exists letters, EmptyString, (String cs EmptyString).
      cbn [fst append]. rewrite substring_all.
      * rewrite En, append_empty_r, Es. repeat split; eauto.
      * rewrite append_length. cbn [String.length]. lia.
    + exists letters, EmptyString, EmptyString.
      cbn [fst append]. rewrite substring_all by lia.
      rewrite En, !append_empty_r, Es. repeat split; eauto.
Qed.

Lemma charIn_append (s t : string) (c : ascii) :
  charIn (s ++ t) c = charIn s c || charIn t c.
Proof.
  induction s as [|a s IH]; simpl; [reflexivity|].
  rewrite IH. apply orb_assoc.
Qed.

Lemma charIn_filter (p : ascii -> bool) (s : string) (c : ascii) :
  charIn (filterString p s) c = p c && charIn s c.
Proof.
  induction s as [|a s IH]; simpl; [symmetry; apply andb_false_r|].
  destruct (Ascii.eqb a c) eqn:E.
  - apply Ascii.eqb_eq in E. subst a.
    destruct (p c); simpl; [rewrite Ascii.eqb_refl; reflexivity|exact IH].
  - destruct (p a); simpl; [rewrite E|]; exact IH.
Qed.

(** The literal alphabets of the generator are the ranges they spell out. *)
Lemma alphabets_are_ranges (c : ascii) :
  charIn lowercaseLetters c = isLower c
  /\ charIn uppercaseLetters c = isUpper c
  /\ charIn digits c = isDigit c.
Proof.
  destruct c as [[] [] [] [] [] [] [] []]; vm_compute; auto.
Qed.

Lemma resolveCharset_allowed (s : GeneratorSettings) (c : ascii) :
  charIn (resolveCharset s) c = allowedChar s c.
Proof.
  destruct (alphabets_are_ranges c) as [Hl [Hu Hd]].
  unfold resolveCharset, allowedChar.
  destruct s as [n up low num sym sim pro]; cbn [includeLowercase includeUppercase
    includeNumbers includeSymbols excludeSimilar].
  destruct sim; [rewrite charIn_filter|];
    destruct low, up, num, sym; cbn [append];
    rewrite ?charIn_append, ?Hl, ?Hu, ?Hd; cbn [charIn andb orb negb];
    destruct (isLower c), (isUpper c), (isDigit c), (charIn symbols c),
      (charIn similarCharacters c); reflexivity.
Qed.

Lemma forallChar_impl (p q : ascii -> bool) (s : string) :
  (forall c, p c = true -> q c = true) ->
  forallChar p s = true -> forallChar q s = true.
Proof.
  intros Hpq. induction s as [|c s IH]; simpl; [auto|].
  intros H. apply andb_true_iff in H as [H1 H2].
  rewrite (Hpq c H1), (IH H2). reflexivity.
Qed.

(** What the non-pronounceable branch produces when its character set is
    not empty: as many characters as asked for, all of the character set. *)
Lemma generate_charset (s : GeneratorSettings) (g : RandomSource) :
  pronounceable s = false ->
  resolveCharset s <> EmptyString ->
  exists out,
    fst (generate s g) = Some out
    /\ String.length out = length s
    /\ forallChar (allowedChar s) out = true.
Proof.
  intros Hp Hne. unfold generate. rewrite Hp.
  destruct (resolveCharset s) as [|a cs] eqn:E; [congruence|].
  cbn [isEmpty]. rewrite <- E in *.
  destruct (charsetLoop_spec (resolveCharset s) (length s) Hne EmptyString g)
    as [out [g' [Hrun [Hlen Hall]]]].
  rewrite Hrun. exists out. cbn [fst append]. repeat split; [exact Hlen|].
  eapply forallChar_impl; [|exact Hall].
  intros c Hc. rewrite <- resolveCharset_allowed. exact Hc.
Qed.

Lemma generate_empty_charset (s : GeneratorSettings) (g : RandomSource) :
  pronounceable s = false ->
  resolveCharset s = EmptyString ->
  generate s g = (None, g).
Proof.
  intros Hp He. unfold generate. rewrite Hp, He. reflexivity.
Qed.

(** With every class disabled the character set is empty. *)
Lemma resolveCharset_no_class (s : GeneratorSettings) :
  includeUppercase s = false -> includeLowercase s = false ->
  includeNumbers s = false -> includeSymbols s = false ->
  resolveCharset s = EmptyString.
Proof.
  intros Hu Hl Hn Hs. unfold resolveCharset.
  rewrite Hu, Hl, Hn, Hs. destruct (excludeSimilar s); reflexivity.
Qed.

(** From length 6 on, the pronounceable branch cannot fill the length:
    half of it, rounded up, and at most two characters more. *)
Lemma generate_pronounceable_short (s : GeneratorSettings) (g : RandomSource) :
  pronounceable s = true ->
  (6 <= length s)%nat ->
  exists out,
    fst (generate s g) = Some out /\ (String.length out < length s)%nat.
Proof.
  intros Hp Hlen.
  destruct (generate_pronounceable s g Hp)
    as [letters [digit [symbol [Hout [Hl [_ [Hd Hs]]]]]]].
  exists (letters ++ digit ++ symbol). split; [exact Hout|].
  assert (Hdl : (String.length digit <= 1)%nat).
  { destruct (includeNumbers s && Nat.ltb (String.length letters) (length s));
      [destruct Hd as [c [-> _]]|subst digit]; simpl; lia. }
  assert (Hsl : (String.length symbol <= 1)%nat).
  { destruct (includeSymbols s
              && Nat.ltb (String.length (letters ++ digit)) (length s));
      [destruct Hs as [c [-> _]]|subst symbol]; simpl; lia. }
  rewrite !append_length, Hl. unfold ceilHalf.
  assert ((length s + 1) / 2 * 2 <= length s + 1)%nat
    by (rewrite Nat.mul_comm; apply Nat.Div0.mul_div_le).
  lia.
Qed.

(** C2: the length contract is broken by the pronounceable branch.  With the
    default settings (length 16, every class enabled) the plain branch yields
    16 characters for every random source, while the pronounceable branch
    yields 10: eight letters, one digit and one symbol. *)
Theorem generate_pronounceable_too_short (g : RandomSource) :
  (exists out,
      fst (generate (mkSettings 16 true true true true false false) g) = Some out
      /\ String.length out = 16%nat)
  /\ (exists out,
      fst (generate (mkSettings 16 true true true true false true) g) = Some out
      /\ String.length out = 10%nat).
Proof.
  split.
  - destruct (generate_charset (mkSettings 16 true true true true false false) g)
      as [out [Hout [Hlen _]]]; [reflexivity|discriminate|].
    exists out. split; assumption.
  - destruct (generate_pronounceable (mkSettings 16 true true true true false true) g)
      as [letters [digit [symbol [Hout [Hlen [_ [Hd Hs]]]]]]]; [reflexivity|].
    exists (letters ++ digit ++ symbol). split; [exact Hout|].
    cbn [length includeNumbers includeSymbols andb] in *.
    change (ceilHalf 16) with 8%nat in Hlen.
    rewrite Hlen in Hd. cbn in Hd. destruct Hd as [cd [-> _]].
    rewrite append_length, Hlen in Hs. cbn in Hs. destruct Hs as [cs [-> _]].
    rewrite !append_length, Hlen. reflexivity.
Qed.

(** C6, as stated, fails once a password has been generated: with every
    class disabled the call leaves the earlier password in place, so what
    the generator shows is not the empty string. *)
Lemma generate_no_class_keeps_old :
  let st := mkAppState (mkSettings 16 false false false false false false) "hunter2" in
  generatedPassword (fst (generatePassword st (fun _ => 0%N))) = "hunter2"
  /\ generatedPassword (fst (generatePassword st (fun _ => 0%N))) <> EmptyString.
Proof. split; [reflexivity|discriminate]. Qed.

(** C6 (amended): with [pronounceable] off and every class disabled,
    [generatePassword] returns without a result: it sets no password, draws
    no random number and leaves the state, hence the previously generated
    password, unchanged (the empty string when none had been generated). *)
Theorem generate_no_class (st : AppState) (g : RandomSource) :
  pronounceable (generatorSettings st) = false ->
  includeUppercase (generatorSettings st) = false ->
  includeLowercase (generatorSettings st) = false ->
  includeNumbers (generatorSettings st) = false ->
  includeSymbols (generatorSettings st) = false ->
  fst (generate (generatorSettings st) g) = None
  /\ generatePassword st g = (st, g).
Proof.
  intros Hp Hu Hl Hn Hs.
  pose proof (generate_empty_charset (generatorSettings st) g Hp
                (resolveCharset_no_class _ Hu Hl Hn Hs)) as H.
  unfold generatePassword. rewrite H. split; reflexivity.
Qed.

Lemma generate_no_class_witness :
  fst (generate (mkSettings 16 false false false false true false) (fun _ => 7%N)) = None
  /\ generatePassword
       (mkAppState (mkSettings 16 false false false false true false) EmptyString)
       (fun _ => 7%N)
     = (mkAppState (mkSettings 16 false false false false true false) EmptyString,
        fun _ => 7%N).
Proof.
  apply (generate_no_class
           (mkAppState (mkSettings 16 false false false false true false) EmptyString)
           (fun _ => 7%N)); reflexivity.
Defined.

(** C8: in non-pronounceable mode every character of the generated password
    belongs to the union of the ranges of the enabled classes (a-z, A-Z, 0-9,
    the symbol list), and is none of the look-alikes i l 1 L o 0 O when these
    are excluded. *)
Theorem generate_within_charset (s : GeneratorSettings) (g : RandomSource) (out : string) :
  pronounceable s = false ->
  fst (generate s g) = Some out ->
  forallChar (allowedChar s) out = true.
Proof.
  intros Hp Hout.
  destruct (resolveCharset s) as [|a cs] eqn:E.
  - rewrite (generate_empty_charset s g Hp E) in Hout. discriminate.
  - destruct (generate_charset s g Hp) as [out' [Hout' [_ Hall]]];
      [rewrite E; discriminate|].
    rewrite Hout in Hout'. injection Hout' as <-. exact Hall.
Qed.

Lemma generate_within_charset_witness :
  forallChar (allowedChar (mkSettings 6 true false true false true false)) "AEIPTX" = true.
Proof.
  apply (generate_within_charset
           (mkSettings 6 true false true false true false)
           (fun k => (N.of_nat k * 1234567890123457 + 987654321987)%N));
    reflexivity.
Defined.

Lemma alternates_not_upper (s : string) :
  forall i, alternatesFrom i s = true ->
            forallChar (fun c => negb (isUpper c)) s = true.
Proof.
  induction s as [|c s IH]; intros i H; [reflexivity|].
  cbn [alternatesFrom] in H. apply andb_true_iff in H as [Hc Hs].
  cbn [forallChar]. rewrite (IH _ Hs), andb_true_r.
  rewrite pronounceable_chars_not_upper; [reflexivity|].
  destruct (Nat.eqb (i mod 2) 0); rewrite Hc; [reflexivity|].
  rewrite orb_true_r. reflexivity.
Qed.

(** C10: in pronounceable mode the result does not depend on
    [includeUppercase], [includeLowercase] or [excludeSimilar].  It consists
    of letters alternating between the consonant set and the vowel set,
    beginning with a consonant, followed by at most one digit (none unless
    numbers are enabled) and then at most one symbol of the five-character
    set (none unless symbols are enabled); no character of it is a capital. *)
Theorem pronounceable_shape (s : GeneratorSettings) (g : RandomSource) :
  pronounceable s = true ->
  (forall up low sim : bool,
      generate (mkSettings (length s) up low (includeNumbers s) (includeSymbols s)
                           sim true) g
      = generate s g)
  /\ exists letters digit symbol,
      fst (generate s g) = Some (letters ++ digit ++ symbol)
      /\ alternatesFrom 0 letters = true
      /\ (digit = EmptyString
          \/ (includeNumbers s = true
              /\ exists c, digit = String c EmptyString /\ isDigit c = true))
      /\ (symbol = EmptyString
          \/ (includeSymbols s = true
              /\ exists c, symbol = String c EmptyString
                           /\ charIn pronounceableSymbols c = true))
      /\ forallChar (fun c => negb (isUpper c)) (letters ++ digit ++ symbol) = true.
Proof.
  intros Hp. split.
  - intros up low sim. destruct s as [n u l num sym si p].
    cbn [pronounceable] in Hp. subst p. reflexivity.
  - destruct (generate_pronounceable s g Hp)
      as [letters [digit [symbol [Hout [_ [Halt [Hd Hs]]]]]]].
    exists letters, digit, symbol.
    assert (Hdigit : digit = EmptyString
                     \/ (includeNumbers s = true
                         /\ exists c, digit = String c EmptyString /\ isDigit c = true)).
    { destruct (includeNumbers s); cbn [andb] in Hd; [|left; exact Hd].
      destruct (Nat.ltb (String.length letters) (length s));
        [right; split; [reflexivity|exact Hd]|left; exact Hd]. }
    assert (Hsymbol : symbol = EmptyString
                      \/ (includeSymbols s = true
                          /\ exists c, symbol = String c EmptyString
                                       /\ charIn pronounceableSymbols c = true)).
    { destruct (includeSymbols s); cbn [andb] in Hs; [|left; exact Hs].
      destruct (Nat.ltb (String.length (letters ++ digit)) (length s));
        [right; split; [reflexivity|exact Hs]|left; exact Hs]. }
    repeat split; try assumption.
    rewrite !forallChar_append, (alternates_not_upper letters 0 Halt).
    destruct Hdigit as [->|[_ [cd [-> Hcd]]]], Hsymbol as [->|[_ [cs [-> Hcs]]]];
      cbn [forallChar andb];
      rewrite ?(pronounceable_chars_not_upper cd), ?(pronounceable_chars_not_upper cs);
      try reflexivity;
      rewrite ?Hcd, ?Hcs, ?orb_true_r; reflexivity.
Qed.

Lemma pronounceable_shape_witness :
  (forall up low sim : bool,
      generate (mkSettings 7 up low false true sim true) (fun k => N.of_nat k)
      = generate (mkSettings 7 true true false true true true) (fun k => N.of_nat k))
  /\ exists letters digit symbol,
      fst (generate (mkSettings 7 true true false true true true) (fun k => N.of_nat k))
      = Some (letters ++ digit ++ symbol)
      /\ alternatesFrom 0 letters = true
      /\ (digit = EmptyString
          \/ (false = true
              /\ exists c, digit = String c EmptyString /\ isDigit c = true))
      /\ (symbol = EmptyString
          \/ (true = true
              /\ exists c, symbol = String c EmptyString
                           /\ charIn pronounceableSymbols c = true))
      /\ forallChar (fun c => negb (isUpper c)) (letters ++ digit ++ symbol) = true.
Proof.
  apply (pronounceable_shape (mkSettings 7 true true false true true true)
                             (fun k => N.of_nat k)).
  reflexivity.
Defined.

(* ----------------------------------------------------------------- *)
(** ** The word classifier *)

Lemma arrayIncludes_In (l : list string) (x : string) :
  arrayIncludes l x = true <-> In x l.
Proof.
  unfold arrayIncludes. rewrite existsb_exists. split.
  - intros [y [Hy E]]. apply String.eqb_eq in E. subst y. exact Hy.
  - intros H. exists x. split; [exact H|apply String.eqb_refl].
Qed.

Lemma toLowerCase_length (s : string) :
  String.length (toLowerCase s) = String.length s.
Proof.
  unfold toLowerCase. induction s as [|c s IH]; [reflexivity|].
  cbn [mapString String.length]. rewrite IH. reflexivity.
Qed.

Lemma startsWith_length (s pre : string) :
  startsWith s pre = true -> (String.length pre <= String.length s)%nat.
Proof.
  revert s; induction pre as [|a pre IH]; intros s H; simpl; [lia|].
  destruct s as [|b s]; simpl in H; [discriminate|].
  apply andb_true_iff in H as [_ H]. apply IH in H. simpl. lia.
Qed.

(** Every entry of the tables [isCommonWord] consults has three characters
    or more, so the length guard never hides a match. *)
Lemma reference_entries_long (w : string) :
  In w (ALL_COMMON_WORDS ++ OTHER_COMMON_WORDS ++ COMMON_PREFIXES) ->
  (3 <= String.length w)%nat.
Proof.
  intros H.
  assert (Hall : forallb (fun w => Nat.leb 3 (String.length w))
                   (ALL_COMMON_WORDS ++ OTHER_COMMON_WORDS ++ COMMON_PREFIXES) = true)
    by (vm_compute; reflexivity).
  rewrite forallb_forall in Hall. apply Nat.leb_le. apply Hall. exact H.
Qed.

Lemma matched_long (w : string) :
  matchedByReferenceData w -> (3 <= String.length w)%nat.
Proof.
  intros [[category [Hc Hw]]|[Hw|[prefix [Hp Hw]]]].
  - apply reference_entries_long. apply in_or_app. left.
    unfold ALL_COMMON_WORDS. apply in_concat. exists (snd category).
    split; [apply in_map; exact Hc|exact Hw].
  - apply reference_entries_long. apply in_or_app. right.
    apply in_or_app. left. exact Hw.
  - apply startsWith_length in Hw.
    assert (3 <= String.length prefix)%nat; [|lia].
    apply reference_entries_long. apply in_or_app. right.
    apply in_or_app. right. exact Hp.
Qed.

Lemma matched_decide (w : string) :
  matchedByReferenceData w <->
  existsb (fun category => arrayIncludes (snd category) w) COMMON_WORDS_CATEGORIES
  || existsb (fun prefix => startsWith w prefix) COMMON_PREFIXES
  || arrayIncludes OTHER_COMMON_WORDS w = true.
Proof.
  unfold matchedByReferenceData.
  rewrite !orb_true_iff, !existsb_exists, arrayIncludes_In. split.
  - intros [[c [Hc Hw]]|[Hw|[p [Hp Hw]]]].
    + left. left. exists c. split; [exact Hc|apply arrayIncludes_In; exact Hw].
    + right. exact Hw.
    + left. right. exists p. split; assumption.
  - intros [[[c [Hc Hw]]|[p [Hp Hw]]]|Hw].
    + left. exists c. split; [exact Hc|apply arrayIncludes_In; exact Hw].
    + right. right. exists p. split; assumption.
    + right. left. exact Hw.
Qed.

Lemma short_guard (word : string) :
  isEmpty word || Nat.ltb (String.length word) 3 = false <->
  (3 <= String.length word)%nat.
Proof.
  rewrite orb_false_iff, Nat.ltb_ge. split; [tauto|].
  intros H. split; [|exact H]. destruct word; [simpl in H; lia|reflexivity].
Qed.

(** C4: [isCommonWord] returns [false] for a word of fewer than three
    characters; [true] when the lowercased word occurs in a dictionary
    category or in the other common words, or starts with a common prefix;
    and for a word of three characters or more matched by none of these,
    0.7 up to length 5, 0.4 for length 6 or 7, and [false] from length 8. *)
Theorem isCommonWord_cases (word : string) :
  ((String.length word < 3)%nat -> isCommonWord word = JSBool false)
  /\ (matchedByReferenceData (toLowerCase word) ->
      isCommonWord word = JSBool true)
  /\ (~ matchedByReferenceData (toLowerCase word) ->
      ((3 <= String.length word <= 5)%nat ->
       isCommonWord word = JSNumber (7 # 10))
      /\ ((8 <= String.length word)%nat -> isCommonWord word = JSBool false)
      /\ ((6 <= String.length word <= 7)%nat ->
          isCommonWord word = JSNumber (4 # 10))).
Proof.
  unfold isCommonWord. split; [|split].
  - intros H. destruct word as [|a word]; [reflexivity|].
    cbn [isEmpty orb]. apply Nat.ltb_lt in H. rewrite H. reflexivity.
  - intros H. pose proof (matched_long _ H) as Hlen.
    rewrite toLowerCase_length in Hlen. apply short_guard in Hlen. rewrite Hlen.
    apply matched_decide in H.
    destruct (existsb (fun category => arrayIncludes (snd category) _) _);
      [reflexivity|].
    destruct (existsb (fun prefix => startsWith _ prefix) _); [reflexivity|].
    cbn [orb] in H. rewrite H. reflexivity.
  - intros Hno.
    assert (Hb : existsb (fun category => arrayIncludes (snd category) (toLowerCase word))
                   COMMON_WORDS_CATEGORIES
                 || existsb (fun prefix => startsWith (toLowerCase word) prefix)
                      COMMON_PREFIXES
                 || arrayIncludes OTHER_COMMON_WORDS (toLowerCase word) = false).
    { destruct (_ || _ || _) eqn:E; [|reflexivity].
      exfalso. apply Hno. apply matched_decide. exact E. }
    apply orb_false_iff in Hb as [Hb Ho]. apply orb_false_iff in Hb as [Hc Hp].
    rewrite Hc, Hp, Ho, toLowerCase_length.
    repeat split; intros H;
      (replace (isEmpty word || Nat.ltb (String.length word) 3) with false
        by (symmetry; apply short_guard; lia)).
    + replace (Nat.leb (String.length word) 5) with true
        by (symmetry; apply Nat.leb_le; lia). reflexivity.
    + replace (Nat.leb (String.length word) 5) with false
        by (symmetry; apply Nat.leb_gt; lia).
      replace (Nat.leb 8 (String.length word)) with true
        by (symmetry; apply Nat.leb_le; lia). reflexivity.
    + replace (Nat.leb (String.length word) 5) with false
        by (symmetry; apply Nat.leb_gt; lia).
      replace (Nat.leb 8 (String.length word)) with false
        by (symmetry; apply Nat.leb_gt; lia). reflexivity.
Qed.

Lemma isCommonWord_cases_witness :
  isCommonWord "ab" = JSBool false
  /\ isCommonWord "Zebra" = JSBool true
  /\ isCommonWord "Testing" = JSBool true
  /\ isCommonWord "xyzzy" = JSNumber (7 # 10)
  /\ isCommonWord "zzzzkkkk" = JSBool false
  /\ isCommonWord "zzzzkk" = JSNumber (4 # 10).
Proof.
  assert (Hno : forall w, matchedByReferenceData (toLowerCase w) ->
                          existsb (fun category => arrayIncludes (snd category) (toLowerCase w))
                            COMMON_WORDS_CATEGORIES
                          || existsb (fun prefix => startsWith (toLowerCase w) prefix)
                               COMMON_PREFIXES
                          || arrayIncludes OTHER_COMMON_WORDS (toLowerCase w) = true)
    by (intros w; apply matched_decide).
  split; [apply (proj1 (isCommonWord_cases "ab")); simpl; lia|].
  split; [apply (proj1 (proj2 (isCommonWord_cases "Zebra")));
          apply matched_decide; reflexivity|].
  split; [apply (proj1 (proj2 (isCommonWord_cases "Testing")));
          apply matched_decide; reflexivity|].
  split; [apply (proj1 (proj2 (proj2 (isCommonWord_cases "xyzzy"))
                         (fun H => Bool.diff_false_true (Hno "xyzzy" H)))); simpl; lia|].
  split; [apply (proj1 (proj2 (proj2 (proj2 (isCommonWord_cases "zzzzkkkk"))
                         (fun H => Bool.diff_false_true (Hno "zzzzkkkk" H))))); simpl; lia|].
  apply (proj2 (proj2 (proj2 (proj2 (isCommonWord_cases "zzzzkk"))
                         (fun H => Bool.diff_false_true (Hno "zzzzkk" H))))); simpl; lia.
Defined.

(* ----------------------------------------------------------------- *)
(** ** Formatting a duration *)

Lemma Qltb_cases (a b : Q) :
  (Qltb a b = true /\ (a < b)%Q) \/ (Qltb a b = false /\ (b <= a)%Q).
Proof.
  unfold Qltb. destruct (Qle_bool b a) eqn:E.
  - right. split; [reflexivity|]. apply Qle_bool_iff. exact E.
  - left. split; [reflexivity|]. apply Qnot_le_lt. intros H.
    apply Qle_bool_iff in H. congruence.
Qed.

(** C5, as stated, fails between 1,000 and 10,000 years: the suffix is
    attached although the duration is not beyond 10,000 years. *)
Lemma formatTime_K_before_10000_years :
  formatTime (Finite (5000 * 31556952)) = "5K years"
  /\ ~ (10000 < 5000 * 31556952 / 31556952)%Q.
Proof.
  split; [vm_compute; reflexivity|].
  intros H. vm_compute in H. discriminate.
Qed.

Ltac split_Qltb :=
  repeat match goal with
         | |- context [Qltb ?a ?b] =>
             let H := fresh "H" in
             destruct (Qltb_cases a b) as [[-> H]|[-> H]]
         end.

(** C5 (amended): [formatTime] maps NaN and the infinities to
    "Virtually forever", a duration below one millisecond to "Instantly" and
    one below a second to "Less than a second"; it uses the seconds, minutes,
    hours, days, weeks and months buckets at the boundaries 1, 60, 3600,
    86400, 604800, 2629746 and 31556952 seconds; from one year on it rounds
    to the nearest year below 10 years, to the nearest 10 below 100 and to
    the nearest 100 below 1,000; from 1,000 years on it prints thousands
    with the suffix "K years" (the nearest thousand below 10,000 years, the
    nearest ten thousand below 1,000,000); and from 1,000,000 years on it
    returns "1M+ years". *)
Theorem formatTime_buckets :
  formatTime NaN = "Virtually forever"
  /\ (forall negative, formatTime (Infinity negative) = "Virtually forever")
  /\ forall seconds years : Q,
      (years == seconds / 31556952)%Q ->
      ((seconds < 1 # 1000)%Q -> formatTime (Finite seconds) = "Instantly")
      /\ ((1 # 1000 <= seconds < 1)%Q ->
          formatTime (Finite seconds) = "Less than a second")
      /\ ((1 <= seconds < 60)%Q ->
          formatTime (Finite seconds) = showZ (mathRound seconds) ++ " seconds")
      /\ ((60 <= seconds < 3600)%Q ->
          formatTime (Finite seconds)
          = showZ (mathRound (seconds / 60)) ++ " minutes")
      /\ ((3600 <= seconds < 86400)%Q ->
          formatTime (Finite seconds)
          = showZ (mathRound (seconds / 3600)) ++ " hours")
      /\ ((86400 <= seconds < 604800)%Q ->
          formatTime (Finite seconds)
          = showZ (mathRound (seconds / 86400)) ++ " days")
      /\ ((604800 <= seconds < 2629746)%Q ->
          formatTime (Finite seconds)
          = showZ (mathRound (seconds / 604800)) ++ " weeks")
      /\ ((2629746 <= seconds < 31556952)%Q ->
          formatTime (Finite seconds)
          = showZ (mathRound (seconds / 2629746)) ++ " months")
      /\ ((1 <= years < 10)%Q ->
          formatTime (Finite seconds)
          = showZ (mathRound (seconds / 31556952)) ++ " years")
      /\ ((10 <= years < 100)%Q ->
          formatTime (Finite seconds)
          = showZ (mathRound (seconds / 31556952 / 10) * 10) ++ " years")
      /\ ((100 <= years < 1000)%Q ->
          formatTime (Finite seconds)
          = showZ (mathRound (seconds / 31556952 / 100) * 100) ++ " years")
      /\ ((1000 <= years < 10000)%Q ->
          formatTime (Finite seconds)
          = showZ (mathRound (seconds / 31556952 / 1000)) ++ "K years")
      /\ ((10000 <= years < 1000000)%Q ->
          formatTime (Finite seconds)
          = showZ (mathRound (seconds / 31556952 / 10000) * 10) ++ "K years")
      /\ ((1000000 <= years)%Q -> formatTime (Finite seconds) = "1M+ years").
Proof.
  split; [reflexivity|]. split; [intros []; reflexivity|].
  intros seconds years Hy.
  assert (Hs : (seconds == years * 31556952)%Q) by (rewrite Hy; field).
  unfold formatTime.
  repeat split; intros Hr; split_Qltb; try reflexivity;
    exfalso; rewrite <- ?Hy in *; lra.
Qed.

Lemma formatTime_buckets_witness :
  formatTime (Finite (1 # 2)) = "Less than a second"
  /\ formatTime (Finite 90) = showZ (mathRound (90 / 60)) ++ " minutes"
  /\ formatTime (Finite (5000 * 31556952))
     = showZ (mathRound (5000 * 31556952 / 31556952 / 1000)) ++ "K years"
  /\ formatTime (Finite (2000000 * 31556952)) = "1M+ years".
Proof.
  pose proof (proj2 (proj2 formatTime_buckets)) as H.
  split; [apply (H (1 # 2) ((1 # 2) / 31556952))%Q;
          [reflexivity|split; [discriminate|reflexivity]]|].
  split; [apply (H 90 (90 / 31556952))%Q;
          [reflexivity|split; [discriminate|reflexivity]]|].
  split; [apply (H (5000 * 31556952) 5000)%Q;
          [reflexivity|split; [discriminate|reflexivity]]|].
  apply (H (2000000 * 31556952) 2000000)%Q; [reflexivity|discriminate].
Defined.

(* ----------------------------------------------------------------- *)
(** ** The crack-time estimates are ordered *)

Lemma scaled_rates_ordered (combinations adjustment : R) :
  (0 < combinations)%R -> (0 < adjustment)%R ->
  (combinations / 1000 * adjustment >= combinations / 1000000000 * adjustment
   /\ combinations / 1000000000 * adjustment
      >= combinations / 50000000000 * adjustment)%R.
Proof.
  intros Hc Ha.
  assert (Hp : (0 < combinations * adjustment)%R)
    by (apply Rmult_lt_0_compat; assumption).
  replace (combinations / 1000 * adjustment)%R
    with (combinations * adjustment / 1000)%R by field.
  replace (combinations / 1000000000 * adjustment)%R
    with (combinations * adjustment / 1000000000)%R by field.
  replace (combinations / 50000000000 * adjustment)%R
    with (combinations * adjustment / 50000000000)%R by field.
  split; lra.
Qed.

(** C9: for every entropy, common flag, score and password the three
    estimates are ordered, online at least offline at least optimized, on
    the short-circuit for a common password and on the general path, where
    the same number of combinations and the same adjustment are divided by
    the three guess rates. *)
Theorem crack_time_ordered (entropy : R) (common : bool) (score : R) (pwd : string) :
  (online (calculateTimeToCrack entropy common score pwd)
   >= offline (calculateTimeToCrack entropy common score pwd))%R
  /\ (offline (calculateTimeToCrack entropy common score pwd)
      >= optimized (calculateTimeToCrack entropy common score pwd))%R.
Proof.
  unfold calculateTimeToCrack. destruct common; cbn [online offline optimized].
  - split; lra.
  - apply scaled_rates_ordered.
    + unfold Rpower. apply exp_pos.
    + eapply Rlt_le_trans; [|apply Rmax_l]. lra.
Qed.

(* ----------------------------------------------------------------- *)
(** ** The keyboard rule *)

(** C3: the keyboard rule is not longest-match-wins.  In a password that
    contains asdfgh, both table entries asdf and asdfgh are recorded and
    both penalties are subtracted, 14 points where the longest entry alone
    costs 8; for qwerty the keyboard penalties add up to 42 points, beyond
    the 25 the rule is meant to take at most. *)
Theorem keyboard_penalty_per_entry :
  accPatterns (keyboardStep "Xasdfgh7!Kp2mZr$Lw" zeroAcc)
  = ["Keyboard pattern: asdf"; "Keyboard pattern: asdfgh"]
  /\ (accScore (keyboardStep "Xasdfgh7!Kp2mZr$Lw" zeroAcc) == - (14))%Q
  /\ (accScore (keyboardStepLongestMatch "Xasdfgh7!Kp2mZr$Lw" zeroAcc) == - (8))%Q
  /\ (score (assessPasswordStrength "Xasdfgh7!Kp2mZr$Lw") == 86)%Q
  /\ (accScore (keyboardStep "qwerty" zeroAcc) == - (42))%Q
  /\ (accScore (keyboardStepLongestMatch "qwerty" zeroAcc) == - (25))%Q.
Proof. repeat split; vm_compute; reflexivity. Qed.

(* ----------------------------------------------------------------- *)
(** ** Character diversity and the score *)

(** C7, as stated, fails: two passwords of eight characters, neither with a
    detected pattern, both with the same length and entropy bonus; the one
    with two character classes (letters of both cases) scores 28, the one
    with a single class (symbols) scores 38, because letters-only is
    penalised as an issue and not as a pattern. *)
Lemma diversity_not_monotone :
  String.length "!@#$%^&*" = String.length "xkcdPLMQ"
  /\ patterns (assessPasswordStrength "!@#$%^&*") = []
  /\ patterns (assessPasswordStrength "xkcdPLMQ") = []
  /\ characterTypes "!@#$%^&*" = 1%nat
  /\ characterTypes "xkcdPLMQ" = 2%nat
  /\ (entropyBonus "!@#$%^&*" == entropyBonus "xkcdPLMQ")%Q
  /\ isLikelyCommonPassword "!@#$%^&*" = false
  /\ isLikelyCommonPassword "xkcdPLMQ" = false
  /\ (score (assessPasswordStrength "!@#$%^&*") == 38)%Q
  /\ (score (assessPasswordStrength "xkcdPLMQ") == 28)%Q
  /\ ~ (score (assessPasswordStrength "!@#$%^&*")
        <= score (assessPasswordStrength "xkcdPLMQ"))%Q.
Proof.
  repeat split; try (vm_compute; reflexivity).
  intros H. vm_compute in H. apply H. reflexivity.
Qed.

Lemma push_not_nil (l : list string) (x : string) : (l ++ [x])%list <> [].
Proof. destruct l; discriminate. Qed.

Ltac quiet_step :=
  intros a H;
  repeat match goal with
         | H : context [if ?c then _ else _] |- _ => destruct c
         | H : context [match ?c with _ => _ end] |- _ => destruct c
         end;
  cbn [accPatterns subScore addScore pushPattern pushIssue] in H;
  try reflexivity;
  exfalso;
  repeat match type of H with
         | ((_ ++ [_]) ++ _)%list = [] => apply app_eq_nil in H; destruct H as [H _]
         end;
  exact (push_not_nil _ _ H).

Lemma commonStep_quiet (pwd : string) : quiet (commonStep pwd).
Proof. unfold commonStep. quiet_step. Qed.

Lemma keyboardEntry_quiet (pwd entry : string) :
  quiet (fun a => keyboardEntry pwd a entry).
Proof. unfold keyboardEntry. quiet_step. Qed.

Lemma keyboardStep_quiet (pwd : string) : quiet (keyboardStep pwd).
Proof.
  unfold keyboardStep. induction keyboardPatterns as [|entry table IH];
    intros a H; [reflexivity|].
  cbn [fold_left] in *. pose proof (IH _ H) as E. rewrite E in *.
  apply (keyboardEntry_quiet pwd entry a H).
Qed.

Lemma repeatingStep_quiet (pwd : string) : quiet (repeatingStep pwd).
Proof. unfold repeatingStep. quiet_step. Qed.

Lemma sequentialStep_quiet (pwd : string) : quiet (sequentialStep pwd).
Proof. unfold sequentialStep. quiet_step. Qed.

Lemma alternatingStep_quiet (pwd : string) : quiet (alternatingStep pwd).
Proof. unfold alternatingStep. quiet_step. Qed.

Lemma leetStep_quiet (pwd : string) : quiet (leetStep pwd).
Proof. unfold leetStep. quiet_step. Qed.

Lemma wordSymbolNumberStep_quiet (pwd : string) : quiet (wordSymbolNumberStep pwd).
Proof. unfold wordSymbolNumberStep. quiet_step. Qed.

Lemma wordNumberStep_quiet (pwd : string) : quiet (wordNumberStep pwd).
Proof. unfold wordNumberStep, uncommonWordNumber. quiet_step. Qed.

Lemma dateStep_quiet (pwd : string) : quiet (dateStep pwd).
Proof. unfold dateStep. quiet_step. Qed.

(** The checks that never record a pattern, and what they do to the score. *)
Lemma diversityStep_effect (pwd : string) (a : Acc) :
  accPatterns (diversityStep pwd a) = accPatterns a
  /\ (accScore (diversityStep pwd a) == accScore a + diversityPoints pwd)%Q.
Proof.
  unfold diversityPoints, diversityStep.
  destruct (characterTypes pwd) as [|[|[|[|[|n]]]]];
    cbn [accPatterns accScore addScore zeroAcc]; split; try reflexivity; ring.
Qed.

Lemma lengthStep_effect (pwd : string) (a : Acc) :
  accPatterns (lengthStep pwd a) = accPatterns a
  /\ (accScore (lengthStep pwd a) == accScore a + lengthPoints pwd)%Q.
Proof.
  unfold lengthPoints, lengthStep. cbv zeta.
  repeat match goal with |- context [if ?c then _ else _] => destruct c end;
    cbn [accPatterns accScore addScore pushIssue zeroAcc]; split; try reflexivity; ring.
Qed.

Lemma entropyStep_effect (pwd : string) (a : Acc) :
  accPatterns (entropyStep pwd a) = accPatterns a
  /\ (accScore (entropyStep pwd a) == accScore a + entropyBonus pwd)%Q.
Proof.
  unfold entropyBonus, entropyStep.
  repeat match goal with |- context [if ?c then _ else _] => destruct c end;
    cbn [accPatterns accScore addScore zeroAcc]; split; try reflexivity; ring.
Qed.

Lemma singleTypeStep_effect (pwd : string) (a : Acc) :
  accPatterns (singleTypeStep pwd a) = accPatterns a
  /\ (accScore (singleTypeStep pwd a) == accScore a - singleTypePenalty pwd)%Q.
Proof.
  unfold singleTypePenalty, singleTypeStep.
  repeat match goal with |- context [if ?c then _ else _] => destruct c end;
    cbn [accPatterns accScore subScore pushIssue zeroAcc]; split; try reflexivity; ring.
Qed.

Lemma consistencyStep_effect (pwd : string) (a : Acc) :
  accPatterns (consistencyStep pwd a) = accPatterns a
  /\ accScore (consistencyStep pwd a) = (accScore a + Qmin 10 (strLen pwd))%Q.
Proof. split; reflexivity. Qed.

Lemma missingTypesStep_effect (pwd : string) (a : Acc) :
  accPatterns (missingTypesStep pwd a) = accPatterns a
  /\ accScore (missingTypesStep pwd a) = accScore a.
Proof.
  unfold missingTypesStep.
  destruct (hasUpper pwd), (hasLower pwd), (hasNumber pwd), (hasSymbol pwd);
    split; reflexivity.
Qed.

(** When it records no pattern, the symbol check takes nothing or 2 points. *)
Lemma symbolStep_effect (pwd : string) (a : Acc) :
  accPatterns (symbolStep pwd a) = [] ->
  accPatterns a = []
  /\ exists taken, (taken == 0 \/ taken == 2)%Q
                   /\ (accScore (symbolStep pwd a) == accScore a - taken)%Q.
Proof.
  unfold symbolStep. cbv zeta. intros H.
  repeat match type of H with
         | context [if ?c then _ else _] => destruct c
         end;
    cbn [accPatterns accScore subScore pushPattern pushIssue] in *;
    try (exfalso; exact (push_not_nil _ _ H));
    (split; [exact H|]).
  - exists 2. split; [right|]; reflexivity.
  - exists 0. split; [left; reflexivity|ring].
  - exists 0. split; [left; reflexivity|ring].
Qed.

Ltac use_effect lem f H :=
  match goal with
  | |- context [accScore (f ?pwd ?x)] =>
      let P := fresh "P" in
      let E := fresh "E" in
      destruct (lem pwd x) as [P E]; rewrite P in H; rewrite E; clear P E
  end.

Ltac use_quiet lem H :=
  let E := fresh "E" in
  pose proof (lem _ _ H) as E; rewrite E in H |- *; clear E.

Lemma scoreSteps_after_symbols (pwd : string) :
  accPatterns (scoreSteps pwd) = [] ->
  accPatterns (symbolStep pwd (diversityStep pwd zeroAcc)) = []
  /\ (accScore (scoreSteps pwd)
      == accScore (symbolStep pwd (diversityStep pwd zeroAcc))
         + lengthPoints pwd + entropyBonus pwd
         - singleTypePenalty pwd + Qmin 10 (strLen pwd))%Q.
Proof.
  unfold scoreSteps. cbv zeta. fold zeroAcc. intros H.
  use_effect missingTypesStep_effect missingTypesStep H.
  use_effect consistencyStep_effect consistencyStep H.
  use_effect singleTypeStep_effect singleTypeStep H.
  use_quiet dateStep_quiet H.
  use_quiet wordNumberStep_quiet H.
  use_quiet wordSymbolNumberStep_quiet H.
  use_quiet leetStep_quiet H.
  use_quiet alternatingStep_quiet H.
  use_quiet sequentialStep_quiet H.
  use_quiet repeatingStep_quiet H.
  use_quiet keyboardStep_quiet H.
  use_quiet commonStep_quiet H.
  use_effect entropyStep_effect entropyStep H.
  use_effect lengthStep_effect lengthStep H.
  split; [exact H|reflexivity].
Qed.

(** The score before normalisation of a password with no recorded pattern. *)
Lemma scoreSteps_without_patterns (pwd : string) :
  accPatterns (scoreSteps pwd) = [] ->
  exists taken,
    (taken == 0 \/ taken == 2)%Q
    /\ (accScore (scoreSteps pwd)
        == diversityPoints pwd - taken + lengthPoints pwd + entropyBonus pwd
           - singleTypePenalty pwd + Qmin 10 (strLen pwd))%Q.
Proof.
  intros H. destruct (scoreSteps_after_symbols pwd H) as [Hs E].
  destruct (symbolStep_effect _ _ Hs) as [_ [taken [Htaken E1]]].
  destruct (diversityStep_effect pwd zeroAcc) as [_ E2].
  exists taken. split; [exact Htaken|].
  rewrite E, E1, E2. cbn [accScore zeroAcc]. ring.
Qed.

Lemma characterTypes_le_4 (pwd : string) : (characterTypes pwd <= 4)%nat.
Proof.
  unfold characterTypes.
  destruct (hasUpper pwd), (hasLower pwd), (hasNumber pwd), (hasSymbol pwd);
    cbn; lia.
Qed.

Lemma diversityPoints_succ (p q : string) :
  characterTypes q = S (characterTypes p) ->
  (diversityPoints q == diversityPoints p + 10)%Q.
Proof.
  intros H. pose proof (characterTypes_le_4 q) as Hq.
  unfold diversityPoints, diversityStep. rewrite H in *.
  destruct (characterTypes p) as [|[|[|[|n]]]]; try lia;
    cbn [accScore addScore zeroAcc]; reflexivity.
Qed.

Lemma lengthPoints_same (p q : string) :
  String.length p = String.length q -> lengthPoints p = lengthPoints q.
Proof. intros H. unfold lengthPoints, lengthStep. rewrite H. reflexivity. Qed.

Lemma normalizeScore_no_floor (pwd : string) (a : Acc) :
  (characterTypes pwd < 4)%nat ->
  normalizeScore pwd a = Qmax 1 (Qmin 100 (accScore a)).
Proof.
  intros H. unfold normalizeScore.
  replace (Nat.eqb (characterTypes pwd) 4) with false
    by (symmetry; apply Nat.eqb_neq; lia).
  reflexivity.
Qed.

Lemma normalizeScore_above_clamp (pwd : string) (a : Acc) :
  (Qmax 1 (Qmin 100 (accScore a)) <= normalizeScore pwd a)%Q.
Proof.
  unfold normalizeScore. destruct (_ && _); [apply Q.le_max_l|apply Qle_refl].
Qed.

(** C7 (amended): of two passwords of the same length for which the
    assessment reports no pattern, where the second uses one character class
    more than the first, does not get a lower entropy bonus and does not
    incur a larger letters-only or digits-only penalty, the second scores at
    least as much as the first. *)
Theorem diversity_monotone (p q : string) :
  String.length p = String.length q ->
  patterns (assessPasswordStrength p) = [] ->
  patterns (assessPasswordStrength q) = [] ->
  characterTypes q = S (characterTypes p) ->
  (entropyBonus p <= entropyBonus q)%Q ->
  (singleTypePenalty q <= singleTypePenalty p)%Q ->
  (score (assessPasswordStrength p) <= score (assessPasswordStrength q))%Q.
Proof.
  intros Hlen Hp Hq Hk Hent Hsingle.
  assert (Hq_ne : isEmpty q = false).
  { destruct q; [discriminate|reflexivity]. }
  assert (Hp_ne : isEmpty p = false).
  { destruct p, q; try reflexivity; discriminate. }
  rewrite assess_patterns in Hp, Hq by assumption.
  rewrite !assess_score by assumption.
  pose proof (characterTypes_le_4 q) as Hq4.
  rewrite (normalizeScore_no_floor p) by lia.
  eapply Qle_trans; [|apply normalizeScore_above_clamp].
  apply clamp_monotone.
  destruct (scoreSteps_without_patterns p Hp) as [tp [Htp Ep]].
  destruct (scoreSteps_without_patterns q Hq) as [tq [Htq Eq]].
  rewrite Ep, Eq, (diversityPoints_succ p q Hk), (lengthPoints_same p q Hlen).
  unfold strLen. rewrite Hlen.
  destruct Htp as [Htp|Htp], Htq as [Htq|Htq]; rewrite Htp, Htq; lra.
Qed.

Lemma diversity_monotone_witness :
  (score (assessPasswordStrength "xkcdPLMQ")
   <= score (assessPasswordStrength "xk7dPLMQ"))%Q.
Proof.
  apply diversity_monotone.
  - reflexivity.
  - vm_compute. reflexivity.
  - vm_compute. reflexivity.
  - vm_compute. reflexivity.
  - vm_compute. discriminate.
  - vm_compute. discriminate.
Defined.

(* ----------------------------------------------------------------- *)
(** ** The entropy thresholds are decided exactly *)

Lemma entropyBase_pos (pwd : string) : (1 <= entropyBase pwd)%Z.
Proof.
  unfold entropyBase. cbv zeta.
  assert (H : (0 <= charsetSum pwd)%Z).
  { unfold charsetSum.
    destruct (hasLower pwd), (hasUpper pwd), (hasNumber pwd), (hasSymbol pwd); lia. }
  destruct (charsetSum pwd =? 0)%Z eqn:E.
  - rewrite Z.pow_1_l by lia. lia.
  - apply Z.eqb_neq in E.
    assert (0 < charsetSum pwd ^ Z.of_nat (String.length pwd))%Z
      by (apply Z.pow_pos_nonneg; lia).
    lia.
Qed.

Lemma ln_IZR_pow (b : Z) (n : Z) :
  (0 < b)%Z -> (0 <= n)%Z -> ln (IZR (b ^ n)) = (IZR n * ln (IZR b))%R.
Proof.
  intros Hb Hn. rewrite <- (Z2Nat.id n Hn) at 1.
  rewrite <- pow_IZR, ln_pow by (apply IZR_lt; exact Hb).
  rewrite INR_IZR_INZ, Z2Nat.id by exact Hn. reflexivity.
Qed.

(** Comparing [log2 b * (n / d)] with a threshold [t], for [b >= 1] and
    [n > 0], is comparing two integer powers. *)
Lemma log2_scaled_gt (b n t : Z) (d : positive) :
  (1 <= b)%Z -> (0 < n)%Z -> (0 <= t)%Z ->
  (log2 (IZR b) * Q2R (n # d) > IZR t)%R <-> (2 ^ (t * Zpos d) < b ^ n)%Z.
Proof.
  intros Hb Hn Ht.
  assert (Hl2 : (0 < ln 2)%R) by (pose proof ln_lt_2; lra).
  assert (Hd : (0 < IZR (Zpos d))%R) by (apply IZR_lt; lia).
  assert (Hlhs : (log2 (IZR b) * Q2R (n # d) > IZR t
                  <-> IZR (t * Zpos d) * ln 2 < IZR n * ln (IZR b))%R).
  { unfold log2, Q2R. cbn [Qnum Qden]. rewrite mult_IZR.
    set (L := ln (IZR b)). set (D := IZR (Zpos d)) in *. set (l2 := ln 2) in *.
    replace (L / l2 * (IZR n * / D))%R with ((IZR n * L) / (D * l2))%R
      by (field; split; lra).
    assert (HDl : (0 < D * l2)%R) by (apply Rmult_lt_0_compat; assumption).
    split; intros H.
    - apply (Rmult_lt_compat_r (D * l2)) in H; [|exact HDl].
      replace (IZR n * L / (D * l2) * (D * l2))%R with (IZR n * L)%R in H
        by (field; split; lra).
      lra.
    - apply (Rmult_lt_reg_r (D * l2)); [exact HDl|].
      replace (IZR n * L / (D * l2) * (D * l2))%R with (IZR n * L)%R
        by (field; split; lra).
      lra. }
  rewrite Hlhs.
  rewrite <- (ln_IZR_pow b n) by lia.
  rewrite <- (ln_IZR_pow 2 (t * Zpos d)) by lia.
  assert (Hp2 : (0 < 2 ^ (t * Zpos d))%Z) by (apply Z.pow_pos_nonneg; lia).
  assert (Hpb : (0 < b ^ n)%Z) by (apply Z.pow_pos_nonneg; lia).
  split; intros H.
  - apply lt_IZR. apply ln_lt_inv; try (apply IZR_lt; assumption). exact H.
  - apply ln_increasing; [apply IZR_lt; assumption|]. apply IZR_lt. exact H.
Qed.

Lemma calculateEntropy_scaled (pwd : string) :
  isEmpty pwd = false ->
  calculateEntropy pwd
  = Rmax 0 (log2 (IZR (entropyBase pwd)) * Q2R (entropyScale pwd)).
Proof.
  intros H. unfold calculateEntropy, entropyScale. rewrite H. cbv zeta.
  rewrite (Qeq_eqR _ _ (Qred_correct _)), !Q2R_mult.
  f_equal. ring.
Qed.

(** [entropyExceeds] decides the comparison of the source, [entropy > bits],
    for every password and every threshold that is not negative. *)
Lemma entropyExceeds_correct (pwd : string) (bits : Z) :
  (0 <= bits)%Z ->
  entropyExceeds pwd bits = true <-> (calculateEntropy pwd > IZR bits)%R.
Proof.
  intros Ht. unfold entropyExceeds.
  destruct (isEmpty pwd) eqn:He.
  - unfold calculateEntropy. rewrite He. split; [discriminate|].
    intros H. apply IZR_le in Ht. lra.
  - rewrite (calculateEntropy_scaled pwd He). cbv zeta.
    pose proof (entropyBase_pos pwd) as Hb.
    destruct (entropyScale pwd) as [n d]. cbn [Qnum Qden].
    rewrite Z.ltb_lt.
    assert (Hlog : (0 <= log2 (IZR (entropyBase pwd)))%R).
    { unfold log2. apply Rmult_le_pos.
      - rewrite <- ln_1. destruct (Z.eq_dec (entropyBase pwd) 1) as [->|Hne];
          [apply Rle_refl|].
        apply Rlt_le. apply ln_increasing; [lra|]. apply IZR_lt. lia.
      - apply Rlt_le. apply Rinv_0_lt_compat. pose proof ln_lt_2. lra. }
    assert (Hd : (0 < / IZR (Zpos d))%R)
      by (apply Rinv_0_lt_compat; apply IZR_lt; lia).
    destruct (Z_lt_le_dec 0 n) as [Hn|Hn].
    + rewrite <- (log2_scaled_gt _ n bits d Hb Hn Ht).
      rewrite Rmax_right; [reflexivity|].
      apply Rmult_le_pos; [exact Hlog|]. unfold Q2R. cbn [Qnum Qden].
      apply Rmult_le_pos; [apply IZR_le; lia|lra].
    + assert (Hneg : (log2 (IZR (entropyBase pwd)) * Q2R (n # d) <= 0)%R).
      { unfold Q2R. cbn [Qnum Qden]. apply IZR_le in Hn.
        assert (H1 : (0 <= - IZR n * / IZR (Zpos d))%R)
          by (apply Rmult_le_pos; lra).
        assert (H2 : (0 <= log2 (IZR (entropyBase pwd))
                          * (- IZR n * / IZR (Zpos d)))%R)
          by (apply Rmult_le_pos; assumption).
        lra. }
      rewrite Rmax_left by exact Hneg.
      pose proof (IZR_le _ _ Ht) as HtR.
      split; [|intros H; exfalso; lra].
      intros H. exfalso.
      assert (Hp2 : (0 < 2 ^ (bits * Zpos d))%Z) by (apply Z.pow_pos_nonneg; lia).
      destruct (Z.eq_dec n 0) as [->|Hn0].
      * rewrite Z.pow_0_r in H. lia.
      * rewrite (Z.pow_neg_r (entropyBase pwd) n) in H by lia. lia.
Qed.

(* ----------------------------------------------------------------- *)
(** ** More character classes, more entropy *)

(** One class more always means a larger character set: the largest set of
    [k] classes is smaller than the smallest set of [k + 1]. *)
Lemma charsetSum_more_classes (p q : string) :
  characterTypes q = S (characterTypes p) ->
  (charsetSum p < charsetSum q)%Z.
Proof.
  unfold characterTypes, charsetSum.
  destruct (hasUpper p), (hasLower p), (hasNumber p), (hasSymbol p),
    (hasUpper q), (hasLower q), (hasNumber q), (hasSymbol q);
    cbn [b2n Nat.add]; intros H; try discriminate; lia.
Qed.

Lemma entropyBase_monotone (p q : string) :
  String.length p = String.length q ->
  (charsetSum p <= charsetSum q)%Z ->
  (entropyBase p <= entropyBase q)%Z.
Proof.
  intros Hlen Hc. unfold entropyBase. cbv zeta. rewrite Hlen.
  assert (Hp : (0 <= charsetSum p)%Z).
  { unfold charsetSum.
    destruct (hasLower p), (hasUpper p), (hasNumber p), (hasSymbol p); lia. }
  apply Z.pow_le_mono_l.
  destruct (charsetSum p =? 0)%Z eqn:Ep, (charsetSum q =? 0)%Z eqn:Eq;
    rewrite ?Z.eqb_eq, ?Z.eqb_neq in *; lia.
Qed.

Lemma entropyExceeds_monotone (p q : string) (bits : Z) :
  String.length p = String.length q ->
  (charsetSum p <= charsetSum q)%Z ->
  entropyScale p = entropyScale q ->
  entropyExceeds p bits = true -> entropyExceeds q bits = true.
Proof.
  intros Hlen Hc Hs. unfold entropyExceeds.
  assert (He : isEmpty q = isEmpty p).
  { destruct p, q; try reflexivity; discriminate. }
  rewrite He, <- Hs. destruct (isEmpty p); [auto|]. cbv zeta.
  rewrite !Z.ltb_lt. intros H.
  eapply Z.lt_le_trans; [exact H|].
  apply Z.pow_le_mono_l. split.
  - pose proof (entropyBase_pos p). lia.
  - apply entropyBase_monotone; assumption.
Qed.

(** With the same length and the same reduction factors, the password with
    one class more gets an entropy bonus at least as large. *)
Lemma entropyBonus_more_classes (p q : string) :
  String.length p = String.length q ->
  characterTypes q = S (characterTypes p) ->
  entropyScale p = entropyScale q ->
  (entropyBonus p <= entropyBonus q)%Q.
Proof.
  intros Hlen Hk Hs.
  pose proof (charsetSum_more_classes p q Hk) as Hc.
  assert (Hm : forall bits, entropyExceeds p bits = true ->
                            entropyExceeds q bits = true)
    by (intros bits; apply entropyExceeds_monotone; [assumption|lia|assumption]).
  unfold entropyBonus, entropyStep.
  destruct (entropyExceeds p 90) eqn:E90; [rewrite (Hm _ E90); apply Qle_refl|].
  destruct (entropyExceeds p 70) eqn:E70;
    [rewrite (Hm _ E70); destruct (entropyExceeds q 90); discriminate|].
  destruct (entropyExceeds p 50) eqn:E50;
    [rewrite (Hm _ E50); destruct (entropyExceeds q 90), (entropyExceeds q 70);
     discriminate|].
  destruct (entropyExceeds p 30) eqn:E30;
    [rewrite (Hm _ E30);
     destruct (entropyExceeds q 90), (entropyExceeds q 70), (entropyExceeds q 50);
     discriminate|].
  destruct (entropyExceeds q 90), (entropyExceeds q 70), (entropyExceeds q 50),
    (entropyExceeds q 30); discriminate.
Qed.

(* ----------------------------------------------------------------- *)
(** ** The examples of the specification, evaluated *)

Example common_password123 : isLikelyCommonPassword "password123" = true.
Proof. vm_compute. reflexivity. Qed.

Example uncommon_random : isLikelyCommonPassword "Xk9#mQ2!vL7$" = false.
Proof. vm_compute. reflexivity. Qed.

Example assess_123456 :
  (score (assessPasswordStrength "123456") == 1)%Q
  /\ option_map isCommon (details (assessPasswordStrength "123456")) = Some true
  /\ option_map strength (details (assessPasswordStrength "123456"))
     = Some "Very Weak".
Proof. repeat split; vm_compute; reflexivity. Qed.

Example assess_troubadour :
  (score (assessPasswordStrength "Tr0ub4dor&3") == 80)%Q
  /\ patterns (assessPasswordStrength "Tr0ub4dor&3") = []
  /\ option_map strength (details (assessPasswordStrength "Tr0ub4dor&3"))
     = Some "Very Strong".
Proof. repeat split; vm_compute; reflexivity. Qed.

Example assess_staple :
  (score (assessPasswordStrength "correcthorsebatterystaple") == 50)%Q
  /\ issues (assessPasswordStrength "correcthorsebatterystaple")
     = ["Only letters"; "No uppercase"; "No numbers"; "No symbols"].
Proof. repeat split; vm_compute; reflexivity. Qed.

(** The short-circuit for a common password: all three estimates are below
    a hundredth of a second. *)
Lemma crack_time_common (entropy score : R) (pwd : string) :
  (online (calculateTimeToCrack entropy true score pwd) < 1 / 100
   /\ offline (calculateTimeToCrack entropy true score pwd) < 1 / 100
   /\ optimized (calculateTimeToCrack entropy true score pwd) < 1 / 100)%R.
Proof. cbn [calculateTimeToCrack online offline optimized]. repeat split; lra. Qed.
